(** * KnowledgeOps platform: chunking, vector index, generation with fallback

  A shallow embedding of the retrieval-augmented query pipeline:
  - [PyStr]: the Python [str] primitives the services rely on;
  - [Chunker]: [DocumentParser.chunk_text]
    (app/services/document_parser_backup.py);
  - [MD5] and [VectorService]: [VectorService.add_documents],
    [search_similar], [get_stats], [clear_all]
    (app/services/vector_service.py);
  - [LLM]: [LLMService.process_query] and [_fallback_response]
    (app/services/llm_service.py);
  - [Frontend]: [query_for_frontend] (main_simple.py);
  - [Ingest]: the fixed-step chunking loop (process_documents.py,
    main_simple.py).

  Python [int] is [Z]; [str] is [string], one [ascii] per code point
  (code points below 256); [float] is idealised as [R].  The distances
  are those the store reports: it computes them in single precision, so
  they are the exact cosine distances only up to its rounding. *)

From Stdlib Require Import ZArith Lia String Ascii List Sorted DecimalString.
From Stdlib Require Import QArith Reals Lra.
From stdpp Require Import base list gmap strings.

Import ListNotations.
Local Open Scope string_scope.
Local Open Scope Z_scope.

(** ** Python string primitives *)

Module PyStr.

(** [len(s)] *)
Definition len (s : string) : Z := Z.of_nat (String.length s).

(** [c.isspace()] for a code point below 256: TAB..CR, FS..US, SPACE,
    NEL (0x85) and NBSP (0xA0). *)
Definition isspace (c : ascii) : bool :=
  let n := Z.of_N (N_of_ascii c) in
  ((9 <=? n) && (n <=? 13)) || ((28 <=? n) && (n <=? 32))
  || (n =? 133) || (n =? 160).

Fixpoint lstrip (s : string) : string :=
  match s with
  | EmptyString => EmptyString
  | String c s' => if isspace c then lstrip s' else s
  end.

Fixpoint rstrip (s : string) : string :=
  match s with
  | EmptyString => EmptyString
  | String c s' =>
      match rstrip s' with
      | EmptyString => if isspace c then EmptyString else String c EmptyString
      | r => String c r
      end
  end.

(** [s.strip()] *)
Definition strip (s : string) : string := rstrip (lstrip s).

(** Truthiness of a [str]: the empty string is falsy. *)
Definition truthy (s : string) : bool :=
  match s with EmptyString => false | _ => true end.

(** Index adjustment shared by slicing and [rfind]: a negative index
    counts from the end, and the result is clamped to [0, n]. *)
Definition norm_index (n i : Z) : Z :=
  if i <? 0 then Z.max (i + n) 0 else Z.min i n.

(** [s[i:j]] *)
Definition slice (s : string) (i j : Z) : string :=
  let lo := norm_index (len s) i in
  let hi := norm_index (len s) j in
  substring (Z.to_nat lo) (Z.to_nat (hi - lo)) s.

(** [s[:j]] *)
Definition slice_to (s : string) (j : Z) : string := slice s 0 j.

(** Scan positions [lo + k - 1] down to [lo] for the character [c]. *)
Fixpoint rfind_aux (c : ascii) (s : string) (lo k : nat) : Z :=
  match k with
  | O => -1
  | S k' =>
      match String.get (lo + k') s with
      | Some d => if Ascii.eqb d c then Z.of_nat (lo + k')
                  else rfind_aux c s lo k'
      | None => rfind_aux c s lo k'
      end
  end.

(** [s.rfind(c, i, j)] for a one-character needle. *)
Definition rfind (c : ascii) (s : string) (i j : Z) : Z :=
  let lo := norm_index (len s) i in
  let hi := norm_index (len s) j in
  rfind_aux c s (Z.to_nat lo) (Z.to_nat (hi - lo)).

(** [len(s.split())]: the number of maximal runs of non-space
    characters. *)
Fixpoint count_words (in_word : bool) (s : string) : Z :=
  match s with
  | EmptyString => 0
  | String c s' =>
      if isspace c then count_words false s'
      else (if in_word then 0 else 1) + count_words true s'
  end.

(** [c.lower()] for a code point below 256: A..Z and the Latin-1
    capitals (0xC0..0xDE except the multiplication sign 0xD7). *)
Definition lower_char (c : ascii) : ascii :=
  let n := N_of_ascii c in
  if (((65 <=? n) && (n <=? 90))
      || ((192 <=? n) && (n <=? 222) && negb (n =? 215)))%N
  then ascii_of_N (n + 32) else c.

Fixpoint lower (s : string) : string :=
  match s with
  | EmptyString => EmptyString
  | String c s' => String (lower_char c) (lower s')
  end.

(** [sub in s] *)
Fixpoint contains (sub s : string) : bool :=
  match s with
  | EmptyString => String.prefix sub EmptyString
  | String _ s' => String.prefix sub s || contains sub s'
  end.

(** [s.startswith(p)] *)
Definition startswith (s p : string) : bool := String.prefix p s.

(** The line feed of ["\n"]. *)
Definition nl : string := String (ascii_of_nat 10) EmptyString.

(** [str(i)] for an [int], as an f-string formats it. *)
Definition of_int (i : Z) : string := NilZero.string_of_int (Z.to_int i).

(** [s.encode()]: UTF-8, one or two bytes for a code point below 256. *)
Fixpoint encode (s : string) : list Z :=
  match s with
  | EmptyString => []
  | String c s' =>
      let n := Z.of_N (N_of_ascii c) in
      if n <? 128 then n :: encode s'
      else (192 + n / 64) :: (128 + n mod 64) :: encode s'
  end.

End PyStr.

(** ** The chunker *)

Module Chunker.

(** One dictionary appended to [chunks]; [text_length] is the ['length']
    entry. *)
Record chunk := mk_chunk {
  chunk_id : Z;
  text : string;
  start_pos : Z;
  end_pos : Z;
  text_length : Z;
  word_count : Z
}.

(** The local variables of the [while] loop. *)
Record loop_state := mk_state {
  chunks : list chunk;
  start : Z;
  next_id : Z
}.

(** [end] after the word-boundary adjustment (lines 236-243). *)
Definition window_end (txt : string) (chunk_size start : Z) : Z :=
  let e := start + chunk_size in
  if e <? PyStr.len txt then
    let word_boundary := PyStr.rfind " " txt start e in
    if word_boundary >? start + chunk_size / 2 then word_boundary else e
  else e.

(** [start] for the next iteration (line 259). *)
Definition next_start (txt : string) (chunk_size overlap start : Z) : Z :=
  let e := window_end txt chunk_size start in
  if e <? PyStr.len txt then e - overlap else PyStr.len txt.

(** The stripped window text (line 245). *)
Definition window_text (txt : string) (chunk_size start : Z) : string :=
  PyStr.strip (PyStr.slice txt start (window_end txt chunk_size start)).

(** One pass through the loop body (lines 235-259). *)
Definition loop_body (txt : string) (chunk_size overlap : Z)
    (st : loop_state) : loop_state :=
  let e := window_end txt chunk_size (start st) in
  let chunk_text := window_text txt chunk_size (start st) in
  let start' := next_start txt chunk_size overlap (start st) in
  if PyStr.truthy chunk_text then
    {| chunks := chunks st ++
         [ {| chunk_id := next_id st;
              text := chunk_text;
              start_pos := start st;
              end_pos := e;
              text_length := PyStr.len chunk_text;
              word_count := PyStr.count_words false chunk_text |} ];
       start := start';
       next_id := next_id st + 1 |}
  else
    {| chunks := chunks st; start := start'; next_id := next_id st |}.

(** The [while start < len(text)] loop, bounded by [fuel] iterations;
    [None] means the fuel ran out before the guard failed. *)
Fixpoint chunk_loop (fuel : nat) (txt : string) (chunk_size overlap : Z)
    (st : loop_state) : option (list chunk) :=
  if start st <? PyStr.len txt then
    match fuel with
    | O => None
    | S fuel' =>
        chunk_loop fuel' txt chunk_size overlap
          (loop_body txt chunk_size overlap st)
    end
  else Some (chunks st).

Definition init_state : loop_state :=
  {| chunks := []; start := 0; next_id := 1 |}.

(** [DocumentParser.chunk_text] *)
Definition chunk_text (fuel : nat) (txt : string)
    (chunk_size overlap : Z) : option (list chunk) :=
  if negb (PyStr.truthy txt) || negb (PyStr.truthy (PyStr.strip txt))
  then Some []
  else chunk_loop fuel txt chunk_size overlap init_state.

(** The state after [k] passes through the body, whatever the guard. *)
Fixpoint iterate (k : nat) (txt : string) (chunk_size overlap : Z)
    (st : loop_state) : loop_state :=
  match k with
  | O => st
  | S k' => iterate k' txt chunk_size overlap
              (loop_body txt chunk_size overlap st)
  end.

End Chunker.

(** ** MD5 (RFC 1321), as [hashlib.md5(...).hexdigest()] computes it *)

Module MD5.

Definition mask32 (x : Z) : Z := x mod 2 ^ 32.

Definition rotl (x c : Z) : Z :=
  mask32 (Z.lor (Z.shiftl x c) (Z.shiftr x (32 - c))).

(** Per-round shift amounts. *)
Definition shifts : list Z :=
  [ 7; 12; 17; 22; 7; 12; 17; 22; 7; 12; 17; 22; 7; 12; 17; 22;
    5; 9; 14; 20; 5; 9; 14; 20; 5; 9; 14; 20; 5; 9; 14; 20;
    4; 11; 16; 23; 4; 11; 16; 23; 4; 11; 16; 23; 4; 11; 16; 23;
    6; 10; 15; 21; 6; 10; 15; 21; 6; 10; 15; 21; 6; 10; 15; 21 ].

(** [floor(2^32 * abs(sin(i + 1)))] for [i] in 0..63. *)
Definition sines : list Z :=
  [ 3614090360; 3905402710; 606105819; 3250441966; 4118548399; 1200080426; 2821735955; 4249261313;
    1770035416; 2336552879; 4294925233; 2304563134; 1804603682; 4254626195; 2792965006; 1236535329;
    4129170786; 3225465664; 643717713; 3921069994; 3593408605; 38016083; 3634488961; 3889429448;
    568446438; 3275163606; 4107603335; 1163531501; 2850285829; 4243563512; 1735328473; 2368359562;
    4294588738; 2272392833; 1839030562; 4259657740; 2763975236; 1272893353; 4139469664; 3200236656;
    681279174; 3936430074; 3572445317; 76029189; 3654602809; 3873151461; 530742520; 3299628645;
    4096336452; 1126891415; 2878612391; 4237533241; 1700485571; 2399980690; 4293915773; 2240044497;
    1873313359; 4264355552; 2734768916; 1309151649; 4149444226; 3174756917; 718787259; 3951481745 ].

Definition nthZ (l : list Z) (i : Z) : Z := nth (Z.to_nat i) l 0.

(** Padding: a 1 bit, zeros up to 56 mod 64, then the bit length as a
    64-bit little-endian integer. *)
Definition le_bytes (count : nat) (x : Z) : list Z :=
  map (fun k => Z.shiftr x (8 * Z.of_nat k) mod 256) (seq 0 count).

Definition pad (msg : list Z) : list Z :=
  let n := Z.of_nat (length msg) in
  let zeros := Z.to_nat ((55 - n) mod 64) in
  msg ++ [128] ++ repeat 0 zeros ++ le_bytes 8 ((8 * n) mod 2 ^ 64).

Definition le_word (bs : list Z) : Z :=
  nthZ bs 0 + 256 * nthZ bs 1 + 65536 * nthZ bs 2 + 16777216 * nthZ bs 3.

Fixpoint words (count : nat) (bs : list Z) : list Z :=
  match count with
  | O => []
  | S count' => le_word bs :: words count' (skipn 4 bs)
  end.

Definition round (m : list Z) (st : Z * Z * Z * Z) (i : Z)
    : Z * Z * Z * Z :=
  let '(a, b, c, d) := st in
  let '(f, g) :=
    if i <? 16 then
      (Z.lor (Z.land b c) (Z.land (mask32 (Z.lnot b)) d), i)
    else if i <? 32 then
      (Z.lor (Z.land d b) (Z.land (mask32 (Z.lnot d)) c), (5 * i + 1) mod 16)
    else if i <? 48 then
      (Z.lxor (Z.lxor b c) d, (3 * i + 5) mod 16)
    else
      (Z.lxor c (Z.lor b (mask32 (Z.lnot d))), (7 * i) mod 16) in
  let f' := mask32 (f + a + nthZ sines i + nthZ m g) in
  (d, mask32 (b + rotl f' (nthZ shifts i)), b, c).

Definition block (st : Z * Z * Z * Z) (bs : list Z) : Z * Z * Z * Z :=
  let '(a0, b0, c0, d0) := st in
  let '(a, b, c, d) :=
    fold_left (round (words 16 bs)) (map Z.of_nat (seq 0 64)) st in
  (mask32 (a0 + a), mask32 (b0 + b), mask32 (c0 + c), mask32 (d0 + d)).

Fixpoint blocks (count : nat) (st : Z * Z * Z * Z) (bs : list Z)
    : Z * Z * Z * Z :=
  match count with
  | O => st
  | S count' => blocks count' (block st (firstn 64 bs)) (skipn 64 bs)
  end.

Definition digest (msg : list Z) : list Z :=
  let p := pad msg in
  let '(a, b, c, d) :=
    blocks (length p / 64)%nat
      (1732584193, 4023233417, 2562383102, 271733878) p in
  le_bytes 4 a ++ le_bytes 4 b ++ le_bytes 4 c ++ le_bytes 4 d.

Definition hex_digit (x : Z) : ascii :=
  nth (Z.to_nat x)
    (list_ascii_of_string "0123456789abcdef") "0"%char.

Fixpoint hex (bs : list Z) : string :=
  match bs with
  | [] => EmptyString
  | b :: bs' => String (hex_digit (b / 16)) (String (hex_digit (b mod 16)) (hex bs'))
  end.

(** [hashlib.md5(s.encode()).hexdigest()] *)
Definition hexdigest (s : string) : string := hex (digest (PyStr.encode s)).

End MD5.

(** ** The vector index *)

Module VectorService.

Definition metadata : Type := gmap string string.

(** A dictionary handed to [add_documents]; a missing key is [None]. *)
Record document := mk_document {
  doc_content : option string;
  doc_metadata : option metadata
}.

(** What the collection keeps under one id. *)
Record entry := mk_entry {
  e_document : string;
  e_embedding : list R;
  e_metadata : metadata
}.

(** The storage client is an external collaborator.  Releases differ
    in what [collection.add] does with an id that is already stored:
    older ones raise, newer ones leave the stored record alone. *)
Inductive existing_id_policy := RejectExisting | SkipExisting.

(** [distance u v] is the distance the store reports between two vectors
    of its cosine space; it computes in single precision, so this is the
    cosine distance up to its rounding.  [knn c q n] is its
    nearest-neighbour search: the ids it selects for the query vector [q],
    or [None] when it raises. *)
Record chroma_client := mk_client {
  on_existing_id : existing_id_policy;
  distance : list R -> list R -> R;
  knn : gmap string entry -> list R -> Z -> option (list string)
}.

(** [self]: the client, the embedding model and the collection. *)
Record t := mk_service {
  client : chroma_client;
  embedding_model : string -> list R;
  collection : gmap string entry
}.

Definition dot (u v : list R) : R :=
  fold_right Rplus 0%R (zip_with Rmult u v).

(** The exact distance of a collection created with
    ["hnsw:space": "cosine"]; the store approximates it. *)
Definition cosine_distance (u v : list R) : R :=
  (1 - dot u v / (sqrt (dot u u) * sqrt (dot v v)))%R.

(** [hashlib.md5(f"{text[:100]}_{i}".encode()).hexdigest()] (line 54) *)
Definition doc_id (text : string) (i : nat) : string :=
  MD5.hexdigest
    (PyStr.slice_to text 100 +:+ "_" +:+ PyStr.of_int (Z.of_nat i)).

Definition texts_of (documents : list document) : list string :=
  map (fun doc => default "" (doc_content doc)) documents.

Definition metadatas_of (documents : list document) : list metadata :=
  map (fun doc => default ∅ (doc_metadata doc)) documents.

Definition ids_of (documents : list document) : list string :=
  imap (fun i doc => doc_id (default "" (doc_content doc)) i) documents.

Definition put_new (c : gmap string entry) (r : string * entry)
    : gmap string entry :=
  match c !! r.1 with
  | Some _ => c
  | None => <[r.1 := r.2]> c
  end.

(** [collection.add(documents=, embeddings=, metadatas=, ids=)]: an empty
    batch, an empty metadata dictionary or an id repeated inside the batch
    raises ([None]). *)
Definition collection_add (cl : chroma_client) (c : gmap string entry)
    (documents : list string) (embeddings : list (list R))
    (metadatas : list metadata) (ids : list string)
    : option (gmap string entry) :=
  let records :=
    zip ids (zip_with (fun de m => mk_entry de.1 de.2 m)
                      (zip documents embeddings) metadatas) in
  if bool_decide (ids = []) then None
  else if bool_decide (Exists (fun m => m = ∅) metadatas) then None
  else if negb (bool_decide (NoDup ids)) then None
  else
    match on_existing_id cl with
    | RejectExisting =>
        if bool_decide (Exists (fun id => is_Some (c !! id)) ids)
        then None
        else Some (foldl put_new c records)
    | SkipExisting => Some (foldl put_new c records)
    end.

(** [VectorService.add_documents] (VECTOR_AVAILABLE is always true):
    the returned flag and the service afterwards. *)
Definition add_documents (vs : t) (documents : list document) : bool * t :=
  let texts := texts_of documents in
  let metadatas := metadatas_of documents in
  let ids := ids_of documents in
  let embeddings := map (embedding_model vs) texts in
  match collection_add (client vs) (collection vs)
          texts embeddings metadatas ids with
  | Some c' => (true, mk_service (client vs) (embedding_model vs) c')
  | None => (false, vs)
  end.

Record stats := mk_stats {
  total_chunks : Z;
  collection_name : option string;
  embedding_model_name : option string;
  status : string
}.

(** [VectorService.get_stats] *)
Definition get_stats (vs : t) : stats :=
  {| total_chunks := Z.of_nat (size (collection vs));
     collection_name := Some "documents";
     embedding_model_name := Some "all-MiniLM-L6-v2";
     status := "operational" |}.

(** The dictionary [collection.query] returns, one inner list per query
    vector. *)
Record query_response := mk_response {
  documents : list (list string);
  metadatas : list (list metadata);
  distances : list (list R)
}.

Definition collection_query (cl : chroma_client) (c : gmap string entry)
    (q : list R) (n_results : Z) : option query_response :=
  ids ← knn cl c q n_results;
  hits ← mapM (fun id => c !! id) ids;
  Some {| documents := [map e_document hits];
          metadatas := [map e_metadata hits];
          distances :=
            [map (fun e => distance cl q (e_embedding e)) hits] |}.

Record retrieval_result := mk_result {
  content : string;
  metadata_of : metadata;
  score : R
}.

Definition nonempty {A} (l : list A) : bool :=
  match l with [] => false | _ => true end.

(** Lines 101-108; an index out of range raises ([None]). *)
Definition format_result (results : query_response) (i : nat)
    (doc : string) : option retrieval_result :=
  md ← (if nonempty (metadatas results)
        then metadatas results !! 0%nat ≫= (.!! i) else Some ∅);
  sc ← (if nonempty (distances results)
        then (fun d => (1 - d)%R) <$> (distances results !! 0%nat ≫= (.!! i))
        else Some 0%R);
  Some {| content := doc; metadata_of := md; score := sc |}.

Definition format_results (results : query_response)
    : option (list retrieval_result) :=
  match documents results with
  | docs0 :: _ =>
      if nonempty docs0
      then mapM (fun r => r) (imap (format_result results) docs0)
      else Some []
  | [] => Some []
  end.

(** [VectorService.search_similar]: any exception yields []. *)
Definition search_similar (vs : t) (query : string) (max_docs : Z)
    : list retrieval_result :=
  default []
    (collection_query (client vs) (collection vs)
       (embedding_model vs query) max_docs ≫= format_results).

(** [VectorService.clear_all]: the collection is deleted and created
    anew, empty. *)
Definition clear_all (vs : t) : bool * t :=
  (true, mk_service (client vs) (embedding_model vs) ∅).

End VectorService.

(** ** Generation with fallback *)

Module LLM.

Import VectorService.

(** One entry of the caller's history; a missing key is [None]. *)
Record turn := mk_turn {
  turn_role : option string;
  turn_content : option string
}.

(** One message of the sequence sent to the backend. *)
Record message := mk_message {
  role : string;
  msg_content : string
}.

(** The completion call: the answer text (the reply's content, a
    string), or [None] when it raises. *)
Definition backend : Type := list message -> option string.

Record t := mk_llm {
  groq_client : option backend;
  groq_model : string;
  vector_service : option VectorService.t
}.

Record query_result := mk_query_result {
  answer : string;
  sources : list retrieval_result;
  success : bool;
  model : string;
  use_rag : bool
}.

(** [l[-n:]] for [n > 0] *)
Definition last_n {A} (n : nat) (l : list A) : list A :=
  drop (length l - n) l.

(** Lines 49-52. *)
Definition rag_context_of (results : list retrieval_result) : string :=
  String.concat (PyStr.nl +:+ PyStr.nl)
    (imap (fun i r =>
             "Document " +:+ PyStr.of_int (Z.of_nat i + 1) +:+ ": "
             +:+ PyStr.slice_to (content r) 300 +:+ "...")
          (take 3 results)).

Definition system_message (rag_context : string) : string :=
  "You are a helpful AI assistant with perfect memory of our conversation."
  +:+ (if PyStr.truthy rag_context then
         PyStr.nl +:+ PyStr.nl +:+ "Relevant documents from knowledge base:"
         +:+ PyStr.nl +:+ rag_context +:+ PyStr.nl +:+ PyStr.nl
         +:+ "Use these documents to answer when relevant."
       else "").

(** Lines 69-74. *)
Definition history_messages (context : option (list turn)) : list message :=
  match context with
  | Some ctx =>
      omap (fun msg =>
              let content := default "" (turn_content msg) in
              if PyStr.truthy content
              then Some (mk_message (default "user" (turn_role msg)) content)
              else None)
           (last_n 6 ctx)
  | None => []
  end.

(** Lines 59-77. *)
Definition build_messages (rag_context : string)
    (context : option (list turn)) (query : string) : list message :=
  [mk_message "system" (system_message rag_context)]
  ++ history_messages context
  ++ [mk_message "user" query].

Definition fallback_line (i : nat) (s : retrieval_result) : string :=
  PyStr.of_int (Z.of_nat i + 1) +:+ ". "
  +:+ PyStr.slice_to (content s) 200 +:+ "..." +:+ PyStr.nl.

(** [LLMService._fallback_response] *)
Definition fallback_response (query : string)
    (sources : list retrieval_result) : query_result :=
  let answer :=
    if nonempty sources then
      "Found " +:+ PyStr.of_int (Z.of_nat (length sources))
      +:+ " relevant documents for: " +:+ query +:+ PyStr.nl +:+ PyStr.nl
      +:+ String.concat "" (imap fallback_line (take 3 sources))
    else "Processing: " +:+ query +:+ " (AI service not available)" in
  {| answer := answer;
     sources := sources;
     success := true;
     model := "fallback";
     use_rag := nonempty sources |}.

(** Lines 41-54: the sources and the context text built from them. *)
Definition retrieve (svc : t) (query : string) (use_rag : bool)
    (max_docs : Z) : list retrieval_result * string :=
  match use_rag, vector_service svc with
  | true, Some vs =>
      let results := search_similar vs query max_docs in
      if nonempty results then (results, rag_context_of results)
      else ([], "")
  | _, _ => ([], "")
  end.

(** [LLMService.process_query] *)
Definition process_query (svc : t) (query : string)
    (context : option (list turn)) (use_rag : bool) (max_docs : Z)
    : query_result :=
  let '(sources, rag_context) := retrieve svc query use_rag max_docs in
  match groq_client svc with
  | Some call =>
      match call (build_messages rag_context context query) with
      | Some answer =>
          {| answer := answer;
             sources := sources;
             success := true;
             model := "groq/" +:+ groq_model svc;
             use_rag := PyStr.truthy rag_context |}
      | None => fallback_response query sources
      end
  | None => fallback_response query sources
  end.

End LLM.

(** ** The query endpoint *)

Module Frontend.

Import VectorService.

(** The request dictionary after the [.get] defaults, for a request as
    the bundled frontend sends it: [question] and [session_id] are
    strings, [max_results] is an integer and [context] is a list of
    dictionaries whose ['role'] and ['content'], when present, are
    strings.  Other JSON bodies (a null context, a number for the
    question, ...) are outside this type; so is a backend reply that is
    not a string. *)
Record request := mk_request {
  question : string;
  max_results : Z;
  context : list LLM.turn;
  session_id : string
}.

(** A source of the response: a retrieval result, or the fixed mock
    entry of the branch without services. *)
Inductive source :=
| Retrieved (r : retrieval_result)
| Mock (content : string).

(** The dictionary returned, the entries of its ["metadata"] inlined; an
    entry the branch does not set is [None]. *)
Record response := mk_http_response {
  answer : string;
  sources : list source;
  confidence : Q;
  success : bool;
  model : string;
  sources_found : option Z;
  processing_time : option string;
  rag_enabled : option bool;
  context_used : Z;
  reply_session_id : string;
  context_aware : option bool
}.

Inductive outcome :=
| Ok (r : response)
| HTTPException (status_code : Z) (detail : string).

(** Lines 179-187. *)
Definition context_text_of (context : list LLM.turn) : string :=
  String.concat ""
    (omap (fun msg =>
             let content := default "" (LLM.turn_content msg) in
             if PyStr.truthy content
             then Some (default "user" (LLM.turn_role msg) +:+ ": "
                        +:+ content +:+ PyStr.nl)
             else None)
          (LLM.last_n 6 context)).

(** Lines 198-206. *)
Definition enhanced_question_of (context_text question : string) : string :=
  if PyStr.truthy context_text then
    "Based on our previous conversation:" +:+ PyStr.nl
    +:+ context_text +:+ PyStr.nl +:+ PyStr.nl
    +:+ "Current question: " +:+ question +:+ PyStr.nl +:+ PyStr.nl
    +:+ "Please answer the current question considering the context of our conversation."
  else question.

Definition cue_words : list string :=
  ["it"; "that"; "this"; "more"; "explain"; "detail"].

(** Lines 219-222. *)
Definition acknowledge (context : list LLM.turn) (question answer : string)
    : string :=
  if nonempty context
     && negb (PyStr.contains "previous" (PyStr.lower answer))
     && negb (PyStr.contains "context" (PyStr.lower answer))
  then
    if existsb (fun word => PyStr.contains word (PyStr.lower question))
               cue_words
    then "Based on our conversation, " +:+ answer
    else answer
  else answer.

(** [query_for_frontend], with the module-level [llm_service]. *)
Definition query_for_frontend (llm_service : option LLM.t) (req : request)
    : outcome :=
  if negb (PyStr.truthy (PyStr.strip (question req))) then
    HTTPException 500 "Query processing error: Question cannot be empty"
  else
    let context_text := context_text_of (context req) in
    match llm_service with
    | Some svc =>
        let result :=
          LLM.process_query svc
            (enhanced_question_of context_text (question req))
            None true (max_results req) in
        Ok {| answer :=
                acknowledge (context req) (question req) (LLM.answer result);
              sources := map Retrieved (LLM.sources result);
              confidence := 85 # 100;
              success := LLM.success result;
              model := LLM.model result;
              sources_found :=
                Some (Z.of_nat (length (LLM.sources result)));
              processing_time := Some "< 1s";
              rag_enabled := Some (LLM.use_rag result);
              context_used := Z.of_nat (length (context req));
              reply_session_id := session_id req;
              context_aware := Some true |}
    | None =>
        let answer :=
          if PyStr.truthy context_text then
            "I understand this is a follow-up to our conversation about '"
            +:+ question req +:+ "'. "
            +:+ "Your RAG system is ready but needs full service integration. "
            +:+ "I can see we have "
            +:+ PyStr.of_int (Z.of_nat (length (context req)))
            +:+ " messages in our conversation history."
          else
            "I understand you're asking about '" +:+ question req +:+ "'. "
            +:+ "Your RAG system is partially initialized but needs full service integration." in
        Ok {| answer := answer;
              sources :=
                [Mock ("Mock relevant content for: " +:+ question req)];
              confidence := 75 # 100;
              success := true;
              model := "fallback_enhanced_with_memory";
              sources_found := None;
              processing_time := None;
              rag_enabled := None;
              context_used := Z.of_nat (length (context req));
              reply_session_id := session_id req;
              context_aware := None |}
    end.

End Frontend.

(** ** Chunking by fixed steps (process_documents.py, and the upload
    endpoints of main_simple.py when [chunk_document] is missing) *)

Module Ingest.

Definition chunk_size : Z := 500.
Definition overlap : Z := 50.

(** [range(0, stop, step)] for a positive step. *)
Definition py_range (stop step : Z) : list Z :=
  map (fun k => Z.of_nat k * step)
      (seq 0 (Z.to_nat ((stop + step - 1) / step))).

(** One dictionary appended to [chunks], its metadata flattened. *)
Record indexed_chunk := mk_indexed_chunk {
  content : string;
  filename : string;
  chunk_index : Z;
  source_file : string
}.

(** The body of the [for] loop (process_documents.py lines 38-47). *)
Definition append_window (file content_text : string)
    (chunks : list indexed_chunk) (i : Z) : list indexed_chunk :=
  let chunk_text := PyStr.slice content_text i (i + chunk_size) in
  if PyStr.truthy (PyStr.strip chunk_text) then
    chunks ++ [ {| content := PyStr.strip chunk_text;
                   filename := file;
                   chunk_index := Z.of_nat (length chunks);
                   source_file := file |} ]
  else chunks.

(** Lines 33-47: the chunks of one file. *)
Definition make_chunks (file content_text : string) : list indexed_chunk :=
  fold_left (append_window file content_text)
            (py_range (PyStr.len content_text) (chunk_size - overlap)) [].

End Ingest.

(** * Predicates and sample inputs of the statements *)

(** ** Predicates *)

(** The text has a space at offset [p]. *)
Definition space_at (txt : string) (p : Z) : Prop :=
  String.get (Z.to_nat p) txt = Some " "%char.

(** The starts below zero that the chunker loop can reach. *)
Definition wrapped (txt : string) (cs s : Z) : Prop :=
  - cs < s < 0 /\ -1 <= s + cs / 2 /\ cs < PyStr.len txt.

(** Every start the loop reaches is inside the text or wrapped. *)
Definition reachable (txt : string) (cs s : Z) : Prop :=
  0 <= s \/ wrapped txt cs s.

Definition within_size (cs : Z) (c : Chunker.chunk) : Prop :=
  PyStr.len (Chunker.text c) <= cs /\ Chunker.text_length c <= cs.

(** A start from which the next one is no smaller. *)
Definition good (txt : string) (cs ov s : Z) : Prop :=
  0 <= s /\ (s < PyStr.len txt -> s <= Chunker.next_start txt cs ov s).

Definition starts_sorted (l : list Chunker.chunk) : Prop :=
  StronglySorted Z.le (map Chunker.start_pos l).

Definition starts_below (b : Z) (l : list Chunker.chunk) : Prop :=
  Forall (fun c => Chunker.start_pos c <= b) l.

Definition strictly_increasing (l : list Chunker.chunk) : Prop :=
  StronglySorted Z.lt (map Chunker.start_pos l) /\
  StronglySorted Z.lt (map Chunker.end_pos l).

(** What the loop knows about the chunks so far when it is at [s]. *)
Definition behind (txt : string) (ov s : Z) (c : Chunker.chunk) : Prop :=
  Chunker.start_pos c < s /\
  (s < PyStr.len txt -> Chunker.end_pos c <= s + ov).

(** The record [search_similar] builds for one stored entry that the
    search selected. *)
Definition result_of (cl : VectorService.chroma_client) (q : list R)
    (e : VectorService.entry) : VectorService.retrieval_result :=
  {| VectorService.content := VectorService.e_document e;
     VectorService.metadata_of := VectorService.e_metadata e;
     VectorService.score :=
       (1 - VectorService.distance cl q (VectorService.e_embedding e))%R |}.

(** The history entry has a ['content'] that is not empty. *)
Definition has_content (t : LLM.turn) : Prop :=
  PyStr.truthy (default "" (LLM.turn_content t)) = true.

#[global] Instance has_content_dec t : Decision (has_content t).
Proof. unfold has_content. apply _. Defined.



(** Every character of [s] is whitespace. *)
Definition all_space (s : string) : Prop :=
  forall c, In c (list_ascii_of_string s) -> PyStr.isspace c = true.

(** The text has a character other than whitespace at offset [p]. *)
Definition nonspace_at (txt : string) (p : Z) : Prop :=
  exists c, String.get (Z.to_nat p) txt = Some c /\ PyStr.isspace c = false.

(** The first and the last character of [s], if any, are not whitespace. *)
Definition trimmed (s : string) : Prop :=
  (forall c, head (list_ascii_of_string s) = Some c -> PyStr.isspace c = false) /\
  (forall c, last (list_ascii_of_string s) = Some c -> PyStr.isspace c = false).

(** The entries of a chunk agree with each other and with the text. *)
Definition well_formed_chunk (txt : string) (cs : Z) (c : Chunker.chunk)
    : Prop :=
  0 <= Chunker.start_pos c < PyStr.len txt /\
  Chunker.start_pos c + cs / 2 < Chunker.end_pos c <= Chunker.start_pos c + cs /\
  Chunker.text c
  = PyStr.strip (PyStr.slice txt (Chunker.start_pos c) (Chunker.end_pos c)) /\
  Chunker.text c <> "" /\
  Chunker.text_length c = PyStr.len (Chunker.text c) /\
  Chunker.word_count c = PyStr.count_words false (Chunker.text c).

(** The loop state numbers its chunks 1, 2, 3, ... *)
Definition numbered (st : Chunker.loop_state) : Prop :=
  map Chunker.chunk_id (Chunker.chunks st)
  = map Z.of_nat (seq 1 (length (Chunker.chunks st))) /\
  Chunker.next_id st = Z.of_nat (length (Chunker.chunks st)) + 1.

(** The loop state holds well-formed chunks only. *)
Definition shaped (txt : string) (cs : Z) (st : Chunker.loop_state) : Prop :=
  reachable txt cs (Chunker.start st) /\
  Forall (well_formed_chunk txt cs) (Chunker.chunks st).

(** Two chunks share at most [ov] characters of the text. *)
Definition overlap_at_most (ov : Z) (c c' : Chunker.chunk) : Prop :=
  Chunker.end_pos c <= Chunker.start_pos c' + ov.

(** What the loop has achieved when it is at [start st], for an overlap
    of at most half the chunk size: the chunks so far lie behind the
    start, share at most [ov] characters pairwise, and their windows hold
    every character other than whitespace before the start. *)
Definition covering (txt : string) (ov : Z) (st : Chunker.loop_state)
    : Prop :=
  0 <= Chunker.start st /\
  strictly_increasing (Chunker.chunks st) /\
  Forall (behind txt ov (Chunker.start st)) (Chunker.chunks st) /\
  StronglySorted (overlap_at_most ov) (Chunker.chunks st) /\
  (forall p, 0 <= p < Chunker.start st -> nonspace_at txt p ->
     exists c, In c (Chunker.chunks st) /\
               Chunker.start_pos c <= p < Chunker.end_pos c).

(** A chunk of the fixed-step chunker as the loop builds it for [file]. *)
Definition step_chunk_ok (file : string) (c : Ingest.indexed_chunk) : Prop :=
  Ingest.content c <> "" /\
  trimmed (Ingest.content c) /\
  PyStr.len (Ingest.content c) <= Ingest.chunk_size /\
  Ingest.filename c = file /\
  Ingest.source_file c = file.

(** [s] is made of lower-case hexadecimal digits. *)
Definition hex_string (s : string) : Prop :=
  forall c, In c (list_ascii_of_string s) ->
            In c (list_ascii_of_string "0123456789abcdef").

(** ** Sample inputs *)

(** The guide text of create_test_pdf.py, first section, one entry per
    line. *)
Definition python_guide : string :=
  "Python Best Practices for Professional Development" +:+ PyStr.nl
  +:+ "1. Code Quality" +:+ PyStr.nl
  +:+ "- Always follow PEP 8 style guidelines" +:+ PyStr.nl
  +:+ "- Write self-documenting code" +:+ PyStr.nl
  +:+ "- Use meaningful variable names".

(** A store that skips ids it already holds, with an embedding model and
    a search that play no part in indexing. *)
Definition plain_client : VectorService.chroma_client :=
  {| VectorService.on_existing_id := VectorService.SkipExisting;
     VectorService.distance := VectorService.cosine_distance;
     VectorService.knn := fun _ _ _ => Some [] |}.

Definition empty_service : VectorService.t :=
  {| VectorService.client := plain_client;
     VectorService.embedding_model := fun _ => [1%R];
     VectorService.collection := ∅ |}.

Definition doc_of (text : string) : VectorService.document :=
  {| VectorService.doc_content := Some text;
     VectorService.doc_metadata := None |}.

(** A chunk as the ingestion code builds it, with its metadata. *)
Definition chunk_of (text : string) : VectorService.document :=
  {| VectorService.doc_content := Some text;
     VectorService.doc_metadata :=
       Some {[ "filename" := "notes.txt"; "source_file" := "notes.txt" ]} |}.

(** A dictionary with metadata and no ['content'] key. *)
Definition untitled_chunk : VectorService.document :=
  {| VectorService.doc_content := None;
     VectorService.doc_metadata := Some {[ "filename" := "notes.txt" ]} |}.

Definition opposite_entry : VectorService.entry :=
  {| VectorService.e_document := "opposite";
     VectorService.e_embedding := [(-1)%R];
     VectorService.e_metadata := ∅ |}.

(** One stored vector pointing away from every query embedding. *)
Definition opposed_service : VectorService.t :=
  {| VectorService.client :=
       {| VectorService.on_existing_id := VectorService.SkipExisting;
          VectorService.distance := VectorService.cosine_distance;
          VectorService.knn := fun _ _ _ => Some ["k"] |};
     VectorService.embedding_model := fun _ => [1%R];
     VectorService.collection := {[ "k" := opposite_entry ]} |}.

Definition same_entry : VectorService.entry :=
  {| VectorService.e_document := "same";
     VectorService.e_embedding := [1%R];
     VectorService.e_metadata := {[ "filename" := "notes.txt" ]} |}.

(** A store whose distances are off by 2^-23, as single-precision
    arithmetic can make them; it holds the vector that every query is
    embedded to. *)
Definition rounding_service : VectorService.t :=
  {| VectorService.client :=
       {| VectorService.on_existing_id := VectorService.SkipExisting;
          VectorService.distance :=
            fun u v => (VectorService.cosine_distance u v - / 8388608)%R;
          VectorService.knn := fun _ _ _ => Some ["k"] |};
     VectorService.embedding_model := fun _ => [1%R];
     VectorService.collection := {[ "k" := same_entry ]} |}.

(** No generation backend, nothing indexed. *)
Definition offline_service : LLM.t :=
  {| LLM.groq_client := None;
     LLM.groq_model := "llama3-70b-8192";
     LLM.vector_service := Some empty_service |}.

Definition eight_turns : list LLM.turn :=
  map (fun s => LLM.mk_turn (Some "user") (Some s))
      ["one"; "two"; "three"; "four"; "five"; "six"; "seven"; "eight"].

(** Eight turns, the fourth one without content. *)
Definition gapped_turns : list LLM.turn :=
  [LLM.mk_turn (Some "user") (Some "one");
   LLM.mk_turn (Some "assistant") (Some "two");
   LLM.mk_turn (Some "user") (Some "three");
   LLM.mk_turn (Some "assistant") (Some "");
   LLM.mk_turn None (Some "five");
   LLM.mk_turn (Some "assistant") (Some "six");
   LLM.mk_turn (Some "user") (Some "seven");
   LLM.mk_turn (Some "assistant") (Some "eight")].

(** A backend that answers with the messages it was sent after the
    system message, each as "role=content;". *)
Definition listing_service : LLM.t :=
  {| LLM.groq_client :=
       Some (fun msgs =>
               Some (String.concat ""
                       (map (fun m => LLM.role m +:+ "=" +:+ LLM.msg_content m
                                      +:+ ";")
                            (tail msgs))));
     LLM.groq_model := "llama3-70b-8192";
     LLM.vector_service := Some empty_service |}.

(** A backend that answers with the number of messages it was sent. *)
Definition recounting_service : LLM.t :=
  {| LLM.groq_client :=
       Some (fun msgs => Some (PyStr.of_int (Z.of_nat (length msgs))));
     LLM.groq_model := "llama3-70b-8192";
     LLM.vector_service := Some empty_service |}.

(** A backend whose answer mentions an earlier section. *)
Definition recalling_service : LLM.t :=
  {| LLM.groq_client := Some (fun _ => Some "See the previous section.");
     LLM.groq_model := "llama3-70b-8192";
     LLM.vector_service := None |}.

Definition plain_service : LLM.t :=
  {| LLM.groq_client := Some (fun _ => Some "Chunks are text windows.");
     LLM.groq_model := "llama3-70b-8192";
     LLM.vector_service := None |}.

Definition follow_up : Frontend.request :=
  {| Frontend.question := "explain more";
     Frontend.max_results := 5;
     Frontend.context :=
       [LLM.mk_turn (Some "user") (Some "What is a chunk?");
        LLM.mk_turn (Some "assistant") (Some "A window of text.")];
     Frontend.session_id := "default" |}.

(** * Properties *)

(** ** The primitives on known values *)

Section KnownValues.

Import PyStr.

(** Negative indices count from the end, in slices and in [rfind]. *)
Example slice_wraps : slice "aaaaaa aaaa" (-5) 9 = " aa".
Proof. reflexivity. Qed.

Example rfind_wraps : rfind " " "aaaaaa aaaa" (-5) 9 = 6.
Proof. reflexivity. Qed.

Example rfind_empty_window : rfind " " "aaaaaa aaaa" (-1) 9 = -1.
Proof. reflexivity. Qed.

Example strip_both_sides :
  strip (String (ascii_of_nat 9) " two words  ") = "two words".
Proof. reflexivity. Qed.

Example lower_mixed : lower "Explain MORE" = "explain more".
Proof. reflexivity. Qed.

(** The test suite of RFC 1321. *)
Example md5_empty : MD5.hexdigest "" = "d41d8cd98f00b204e9800998ecf8427e".
Proof. vm_compute. reflexivity. Qed.

Example md5_abc : MD5.hexdigest "abc" = "900150983cd24fb0d6963f7d28e17f72".
Proof. vm_compute. reflexivity. Qed.

Example md5_message_digest :
  MD5.hexdigest "message digest" = "f96b697d7cb7938d525a2f31aaf161d0".
Proof. vm_compute. reflexivity. Qed.

Example md5_two_blocks :
  MD5.hexdigest
    "12345678901234567890123456789012345678901234567890123456789012345678901234567890"
  = "57edf4a22be3c955ac49da2e2107b67a".
Proof. vm_compute. reflexivity. Qed.

End KnownValues.

(** ** Facts about the string primitives *)

Section PyStrFacts.

Import PyStr.

Lemma len_nonneg s : 0 <= len s.
Proof. unfold len. lia. Qed.

Lemma substring_length_le s : forall n m,
  (String.length (substring n m s) <= m)%nat.
Proof.
  induction s as [|c s IH]; intros [|n] [|m]; simpl; try lia.
  - specialize (IH 0%nat m). lia.
  - apply IH.
  - apply IH.
Qed.

Lemma lstrip_length_le s : (String.length (lstrip s) <= String.length s)%nat.
Proof.
  induction s as [|c s IH]; simpl; [lia|].
  destruct (isspace c); simpl; lia.
Qed.

Lemma rstrip_length_le s : (String.length (rstrip s) <= String.length s)%nat.
Proof.
  induction s as [|c s IH]; simpl; [lia|].
  destruct (rstrip s); simpl in *; [destruct (isspace c); simpl; lia | lia].
Qed.

Lemma strip_len_le s : len (strip s) <= len s.
Proof.
  unfold len, strip.
  pose proof (rstrip_length_le (lstrip s)). pose proof (lstrip_length_le s).
  lia.
Qed.

Lemma slice_len_le s i j :
  len (slice s i j) <= Z.max 0 (norm_index (len s) j - norm_index (len s) i).
Proof.
  unfold slice, len at 1.
  pose proof (substring_length_le s
    (Z.to_nat (norm_index (len s) i))
    (Z.to_nat (norm_index (len s) j - norm_index (len s) i))).
  lia.
Qed.

Lemma slice_empty s i j :
  norm_index (len s) j <= norm_index (len s) i -> slice s i j = EmptyString.
Proof.
  intros H. unfold slice.
  replace (Z.to_nat (norm_index (len s) j - norm_index (len s) i))
    with 0%nat by lia.
  generalize (Z.to_nat (norm_index (len s) i)). clear H.
  induction s as [|c s IH]; intros [|n]; simpl; auto.
Qed.

Lemma norm_index_inside n i : 0 <= i <= n -> norm_index n i = i.
Proof. intros H. unfold norm_index. destruct (Z.ltb_spec i 0); lia. Qed.

(** What [rfind_aux] returns: -1, or a position of [c] in the range. *)
Lemma rfind_aux_found c s lo k :
  rfind_aux c s lo k = -1 \/
  (Z.of_nat lo <= rfind_aux c s lo k < Z.of_nat (lo + k) /\
   String.get (Z.to_nat (rfind_aux c s lo k)) s = Some c).
Proof.
  induction k as [|k IH]; simpl; [now left|].
  destruct (String.get (lo + k) s) as [d|] eqn:Hget.
  - destruct (Ascii.eqb_spec d c) as [->|Hne].
    + right. rewrite Nat2Z.id. split; [lia | assumption].
    + destruct IH as [IH | [IH1 IH2]]; [now left | right; split; [lia | assumption]].
  - destruct IH as [IH | [IH1 IH2]]; [now left | right; split; [lia | assumption]].
Qed.

(** It is the last such position. *)
Lemma rfind_aux_last c s lo k (j : nat) :
  (lo <= j < lo + k)%nat -> String.get j s = Some c ->
  Z.of_nat j <= rfind_aux c s lo k.
Proof.
  induction k as [|k IH]; intros Hj Hget; [lia|]. simpl.
  destruct (Nat.eq_dec j (lo + k)%nat) as [->|Hne].
  - rewrite Hget, Ascii.eqb_refl. lia.
  - assert (Z.of_nat j <= rfind_aux c s lo k) by (apply IH; [lia | assumption]).
    destruct (String.get (lo + k) s) as [d|]; [|assumption].
    destruct (Ascii.eqb d c); [lia | assumption].
Qed.

Lemma rfind_empty_range c s i j :
  norm_index (len s) j <= norm_index (len s) i -> rfind c s i j = -1.
Proof.
  intros H. unfold rfind.
  replace (Z.to_nat (norm_index (len s) j - norm_index (len s) i))
    with 0%nat by lia.
  reflexivity.
Qed.

(** [rfind] on a range inside the text. *)
Lemma rfind_found c s i j :
  0 <= i -> 0 <= j <= len s ->
  rfind c s i j = -1 \/
  (i <= rfind c s i j < j /\
   String.get (Z.to_nat (rfind c s i j)) s = Some c).
Proof.
  intros Hi Hj.
  destruct (Z.le_gt_cases j i) as [Hle|Hlt].
  { left. apply rfind_empty_range. unfold norm_index.
    destruct (Z.ltb_spec j 0), (Z.ltb_spec i 0); lia. }
  unfold rfind. rewrite !norm_index_inside by lia.
  destruct (rfind_aux_found c s (Z.to_nat i) (Z.to_nat (j - i)))
    as [H | [H1 H2]]; [now left | right].
  split; [lia | assumption].
Qed.

Lemma rfind_last c s i j p :
  0 <= i -> j <= len s -> i <= p < j ->
  String.get (Z.to_nat p) s = Some c -> p <= rfind c s i j.
Proof.
  intros Hi Hj Hp Hget. unfold rfind.
  rewrite !norm_index_inside by lia.
  pose proof (rfind_aux_last c s (Z.to_nat i) (Z.to_nat (j - i))
                (Z.to_nat p)) as H.
  rewrite Z2Nat.id in H by lia. apply H; [lia | assumption].
Qed.

End PyStrFacts.

(** ** The chunker loop, one pass at a time *)

Section ChunkerSteps.

Import PyStr Chunker.

Variables (txt : string) (cs ov : Z).
Hypothesis Hcs : 0 < cs.
Hypothesis Hov : ov < cs.

#[local] Set Default Proof Using "Hcs Hov".

Lemma half_bounds : 0 <= cs / 2 < cs /\ cs - 1 <= 2 * (cs / 2) <= cs.
Proof. pose proof (Z.div_mod cs 2). pose proof (Z.mod_pos_bound cs 2). lia. Qed.

(** A window that starts inside the text and ends before its end: the
    end stays where it is when no space lies beyond the midpoint, and
    otherwise moves back to the last space of the window. *)
Lemma window_end_inside s :
  0 <= s -> s + cs < len txt ->
  (window_end txt cs s = s + cs /\
   forall p, s <= p < s + cs -> space_at txt p -> p <= s + cs / 2)
  \/
  (s + cs / 2 < window_end txt cs s < s + cs /\
   space_at txt (window_end txt cs s) /\
   forall p, s <= p < s + cs -> space_at txt p -> p <= window_end txt cs s).
Proof.
  intros Hs He. unfold window_end. pose proof half_bounds.
  destruct (Z.ltb_spec (s + cs) (len txt)); [|lia].
  destruct (Z.gtb_spec (rfind " " txt s (s + cs)) (s + cs / 2)) as [Hgt|Hle].
  - right.
    destruct (rfind_found " " txt s (s + cs) ltac:(lia) ltac:(lia))
      as [E | [Hr Hget]]; [lia|].
    split; [lia|]. split; [exact Hget|].
    intros p Hp Hsp. apply rfind_last; try lia. exact Hsp.
  - left. split; [reflexivity|]. intros p Hp Hsp.
    assert (p <= rfind " " txt s (s + cs)) by (apply rfind_last; try lia; exact Hsp).
    lia.
Qed.

Lemma window_end_tail s : len txt <= s + cs -> window_end txt cs s = s + cs.
Proof. intros H. unfold window_end. destruct (Z.ltb_spec (s + cs) (len txt)); [lia | reflexivity]. Qed.

Lemma window_end_bounds s :
  0 <= s -> s + cs / 2 < window_end txt cs s <= s + cs.
Proof.
  intros Hs. pose proof half_bounds.
  destruct (Z.lt_ge_cases (s + cs) (len txt)) as [Hlt|Hge].
  - destruct (window_end_inside s Hs Hlt) as [[-> _] | [H1 _]]; lia.
  - rewrite window_end_tail by lia. lia.
Qed.

Lemma window_end_wrapped s : wrapped txt cs s -> window_end txt cs s = s + cs.
Proof.
  intros (Hs & Hh & Hn). unfold window_end.
  destruct (Z.ltb_spec (s + cs) (len txt)); [|reflexivity].
  rewrite rfind_empty_range.
  - destruct (Z.gtb_spec (-1) (s + cs / 2)); [lia | reflexivity].
  - unfold norm_index.
    destruct (Z.ltb_spec (s + cs) 0), (Z.ltb_spec s 0); lia.
Qed.

Lemma window_text_wrapped s : wrapped txt cs s -> window_text txt cs s = EmptyString.
Proof.
  intros Hw. unfold window_text. rewrite (window_end_wrapped s Hw).
  destruct Hw as (Hs & Hh & Hn).
  rewrite slice_empty; [reflexivity|].
  unfold norm_index.
  destruct (Z.ltb_spec (s + cs) 0), (Z.ltb_spec s 0); lia.
Qed.

Lemma next_start_wrapped s : wrapped txt cs s -> next_start txt cs ov s = s + cs - ov.
Proof.
  intros Hw. unfold next_start. rewrite (window_end_wrapped s Hw).
  destruct Hw as (Hs & Hh & Hn).
  destruct (Z.ltb_spec (s + cs) (len txt)); [reflexivity | lia].
Qed.

Lemma next_start_reachable s :
  reachable txt cs s -> reachable txt cs (next_start txt cs ov s).
Proof.
  pose proof half_bounds. pose proof (len_nonneg txt).
  intros [Hs | Hw].
  - unfold next_start.
    pose proof (window_end_bounds s Hs) as Hb.
    destruct (Z.ltb_spec (window_end txt cs s) (len txt)) as [Hlt|Hge].
    + destruct (Z.lt_ge_cases (window_end txt cs s - ov) 0); [right | left; lia].
      assert (s + cs < len txt).
      { destruct (Z.lt_ge_cases (s + cs) (len txt)); [assumption|].
        rewrite window_end_tail in Hlt by lia. lia. }
      unfold wrapped. lia.
    + left. lia.
  - rewrite (next_start_wrapped s Hw).
    destruct Hw as (Hs & Hh & Hn).
    destruct (Z.lt_ge_cases (s + cs - ov) 0); [right | left; lia].
    unfold wrapped. lia.
Qed.

(** What one pass does to the state. *)
Lemma loop_body_start st :
  start (loop_body txt cs ov st) = next_start txt cs ov (start st).
Proof using Type. unfold loop_body. destruct (truthy _); reflexivity. Qed.

Lemma loop_body_chunks st :
  chunks (loop_body txt cs ov st) = chunks st \/
  exists c, chunks (loop_body txt cs ov st) = (chunks st ++ [c])%list /\
            start_pos c = start st /\
            end_pos c = window_end txt cs (start st) /\
            text c = window_text txt cs (start st) /\
            text_length c = len (text c).
Proof using Type.
  unfold loop_body. destruct (truthy _); [right | left; reflexivity].
  eexists. split; [reflexivity|]. simpl. auto.
Qed.

Lemma loop_body_wrapped st :
  wrapped txt cs (start st) -> chunks (loop_body txt cs ov st) = chunks st.
Proof.
  intros Hw. unfold loop_body.
  rewrite (window_text_wrapped _ Hw). reflexivity.
Qed.

(** The window text never exceeds the chunk size. *)
Lemma window_text_bound s : reachable txt cs s -> len (window_text txt cs s) <= cs.
Proof.
  intros [Hs | Hw]; [| rewrite (window_text_wrapped s Hw); unfold len; simpl; lia].
  unfold window_text.
  etransitivity; [apply strip_len_le|].
  etransitivity; [apply slice_len_le|].
  pose proof (window_end_bounds s Hs). pose proof (len_nonneg txt).
  pose proof half_bounds. unfold norm_index.
  destruct (Z.ltb_spec (window_end txt cs s) 0), (Z.ltb_spec s 0); lia.
Qed.

End ChunkerSteps.

(** ** Whole runs of the chunker loop *)

Section ChunkerRuns.

Import PyStr Chunker.

Variables (txt : string) (cs ov : Z).
Hypothesis Hcs : 0 < cs.
Hypothesis Hov : ov < cs.

#[local] Set Default Proof Using "Hcs Hov".


Lemma chunk_loop_step fuel st :
  start st < len txt ->
  chunk_loop (S fuel) txt cs ov st = chunk_loop fuel txt cs ov (loop_body txt cs ov st).
Proof using Type. intros H. simpl. destruct (Z.ltb_spec (start st) (len txt)); [reflexivity | lia]. Qed.

Lemma chunk_loop_done fuel st :
  len txt <= start st -> chunk_loop fuel txt cs ov st = Some (chunks st).
Proof using Type.
  intros H. destruct fuel; simpl;
    destruct (Z.ltb_spec (start st) (len txt)); solve [reflexivity | lia].
Qed.

Lemma chunk_loop_out_of_fuel st :
  start st < len txt -> chunk_loop 0 txt cs ov st = None.
Proof using Type. intros H. simpl. destruct (Z.ltb_spec (start st) (len txt)); [reflexivity | lia]. Qed.

Lemma sorted_snoc {A} (R : A -> A -> Prop) (l : list A) (x : A) :
  StronglySorted R l -> Forall (fun y => R y x) l ->
  StronglySorted R (l ++ [x]).
Proof using Type.
  induction 1 as [|y l Hl IH Hy]; intros Hall; simpl.
  - repeat constructor.
  - inversion Hall; subst. constructor; [auto|].
    apply Forall_app. split; [assumption | repeat constructor; assumption].
Qed.

(** *** The size of every chunk *)

Lemma body_within_size st :
  reachable txt cs (start st) ->
  Forall (within_size cs) (chunks st) -> Forall (within_size cs) (chunks (loop_body txt cs ov st)).
Proof.
  intros Hr Hall.
  destruct (loop_body_chunks txt cs ov st) as [-> | (c & -> & _ & _ & Htext & Hlen)];
    [assumption|].
  apply Forall_app. split; [assumption|]. repeat constructor.
  - rewrite Htext. now apply (window_text_bound txt cs ov Hcs Hov).
  - rewrite Hlen, Htext. now apply (window_text_bound txt cs ov Hcs Hov).
Qed.

Lemma run_within_size fuel : forall st r,
  reachable txt cs (start st) -> Forall (within_size cs) (chunks st) ->
  chunk_loop fuel txt cs ov st = Some r -> Forall (within_size cs) r.
Proof.
  induction fuel as [|fuel IH]; intros st r Hr Hall Hrun.
  - destruct (Z.lt_ge_cases (start st) (len txt)).
    + rewrite chunk_loop_out_of_fuel in Hrun by assumption. discriminate.
    + rewrite chunk_loop_done in Hrun by assumption. now inversion Hrun; subst.
  - destruct (Z.lt_ge_cases (start st) (len txt)).
    + rewrite chunk_loop_step in Hrun by assumption.
      eapply IH; [ | | exact Hrun]; [| now apply body_within_size].
      rewrite loop_body_start. now apply next_start_reachable.
    + rewrite chunk_loop_done in Hrun by assumption. now inversion Hrun; subst.
Qed.

Lemma iterate_within_size k : forall st,
  reachable txt cs (start st) -> Forall (within_size cs) (chunks st) ->
  Forall (within_size cs) (chunks (iterate k txt cs ov st)).
Proof.
  induction k as [|k IH]; intros st Hr Hall; simpl; [assumption|].
  apply IH; [| now apply body_within_size].
  rewrite loop_body_start. now apply next_start_reachable.
Qed.

(** *** Start offsets in document order *)

Hypothesis Hov0 : 0 <= ov.

#[local] Set Default Proof Using "Hcs Hov Hov0".

(** After a pass that begins and lands inside the text, the start is
    good: the end just chosen is a space of the next window, or no
    space lies between the two midpoints. *)
Lemma step_good s : 0 <= s < len txt -> 0 <= next_start txt cs ov s -> good txt cs ov (next_start txt cs ov s).
Proof.
  intros Hs Hn. split; [assumption|]. intros Hlt.
  pose proof (half_bounds cs ov Hcs Hov) as Hh.
  unfold next_start in Hlt, Hn |- *.
  set (e := window_end txt cs s) in *.
  destruct (Z.ltb_spec e (len txt)) as [He|He]; [|lia].
  set (e' := window_end txt cs (e - ov)).
  destruct (Z.ltb_spec e' (len txt)) as [He'|He']; [|lia].
  assert (Hin : s + cs < len txt).
  { destruct (Z.lt_ge_cases (s + cs) (len txt)); [assumption|].
    subst e. rewrite (window_end_tail txt cs ov Hcs Hov) in He by lia. lia. }
  assert (Hin' : e - ov + cs < len txt).
  { destruct (Z.lt_ge_cases (e - ov + cs) (len txt)); [assumption|].
    subst e'. rewrite (window_end_tail txt cs ov Hcs Hov) in He' by lia. lia. }
  enough (e <= e') by lia.
  destruct (window_end_inside txt cs ov Hcs Hov (e - ov) Hn Hin')
    as [[E' _] | (B' & Hsp' & Hmax')];
    [fold e' in E'; lia | fold e' in B', Hsp', Hmax'].
  destruct (window_end_inside txt cs ov Hcs Hov s (proj1 Hs) Hin)
    as [[E Hmid] | (B & Hsp & Hmax)];
    [fold e in E | fold e in B, Hsp, Hmax].
  - destruct (Z.lt_ge_cases e' e) as [Hlow|]; [|assumption].
    specialize (Hmid e' ltac:(lia) Hsp'). lia.
  - apply Hmax'; [lia | assumption].
Qed.

Lemma body_starts_sorted st b :
  starts_sorted (chunks st) -> starts_below (start st) (chunks st) ->
  start st <= b ->
  starts_sorted (chunks (loop_body txt cs ov st)) /\ starts_below b (chunks (loop_body txt cs ov st)).
Proof.
  intros Hs Hb Hle.
  assert (Hb' : starts_below b (chunks st)).
  { eapply Forall_impl; [exact Hb|]. simpl. intros; lia. }
  destruct (loop_body_chunks txt cs ov st) as [-> | (c & -> & Hc & _)];
    [now split|].
  split.
  - unfold starts_sorted. rewrite map_app. apply sorted_snoc; [assumption|].
    apply Forall_map. simpl. rewrite Hc. exact Hb.
  - apply Forall_app. split; [assumption|]. repeat constructor. lia.
Qed.

Lemma good_run fuel : forall st r,
  good txt cs ov (start st) -> starts_sorted (chunks st) ->
  starts_below (start st) (chunks st) ->
  chunk_loop fuel txt cs ov st = Some r -> starts_sorted r.
Proof.
  induction fuel as [|fuel IH]; intros st r Hg Hs Hb Hrun.
  - destruct (Z.lt_ge_cases (start st) (len txt)).
    + rewrite chunk_loop_out_of_fuel in Hrun by assumption. discriminate.
    + rewrite chunk_loop_done in Hrun by assumption. now inversion Hrun; subst.
  - destruct (Z.lt_ge_cases (start st) (len txt)) as [Hlt|Hge].
    + rewrite chunk_loop_step in Hrun by assumption.
      destruct Hg as [H0 Hnext]. specialize (Hnext Hlt).
      destruct (body_starts_sorted st (next_start txt cs ov (start st)) Hs Hb Hnext).
      apply IH in Hrun; try assumption; rewrite loop_body_start; [|assumption].
      apply step_good; lia.
    + rewrite chunk_loop_done in Hrun by assumption. now inversion Hrun; subst.
Qed.

(** From a wrapped start the loop adds [cs - ov] per pass, appending
    nothing, until the start is back inside the text. *)
Lemma wrapped_run fuel : forall st r,
  wrapped txt cs (start st) ->
  chunk_loop fuel txt cs ov st = Some r ->
  exists fuel' st',
    (fuel' < fuel)%nat /\
    chunk_loop fuel' txt cs ov st' = Some r /\
    chunks st' = chunks st /\
    start st' = start st mod (cs - ov).
Proof.
  induction fuel as [|fuel IH]; intros st r Hw Hrun.
  - rewrite chunk_loop_out_of_fuel in Hrun; [discriminate|].
    pose proof (len_nonneg txt). destruct Hw as ((_ & ?) & _). lia.
  - pose proof (len_nonneg txt). pose proof (half_bounds cs ov Hcs Hov).
    pose proof Hw as ((Hs1 & Hs2) & Hh & Hn).
    rewrite chunk_loop_step in Hrun by lia.
    pose proof (loop_body_wrapped txt cs ov Hcs Hov st Hw) as Hch.
    pose proof (loop_body_start txt cs ov st) as Hst.
    rewrite (next_start_wrapped txt cs ov Hcs Hov _ Hw) in Hst.
    assert (Hmod : (start st + (cs - ov)) mod (cs - ov) = start st mod (cs - ov)).
    { replace (start st + (cs - ov)) with (start st + 1 * (cs - ov)) by lia.
      apply Z_mod_plus_full. }
    destruct (Z.lt_ge_cases (start st + cs - ov) 0) as [Hneg|Hpos].
    + destruct (IH (loop_body txt cs ov st) r) as (fuel' & st' & Hf & Hr' & Hc' & Hs');
        [rewrite Hst; unfold wrapped; lia | assumption |].
      exists fuel', st'. repeat split; [lia | assumption | congruence |].
      rewrite Hs', Hst, <- Hmod. f_equal. lia.
    + exists fuel, (loop_body txt cs ov st). repeat split; [lia | assumption | assumption |].
      rewrite Hst, <- Hmod.
      replace (start st + cs - ov) with (start st + (cs - ov)) by lia.
      symmetry. apply Z.mod_small. lia.
Qed.

(** A wrapped start that the loop comes back to is never left. *)
Lemma wrapped_cycle s :
  wrapped txt cs s -> s mod (cs - ov) < len txt ->
  next_start txt cs ov (s mod (cs - ov)) = s ->
  forall fuel st, start st = s -> chunk_loop fuel txt cs ov st = None.
Proof.
  intros Hw Hlt Hback fuel.
  induction fuel as [fuel IH] using lt_wf_ind. intros st Hst.
  destruct (chunk_loop fuel txt cs ov st) as [r|] eqn:Hrun; [|reflexivity].
  exfalso.
  destruct (wrapped_run fuel st r) as (fuel' & st' & Hf & Hr' & _ & Hs');
    [now rewrite Hst | assumption |].
  rewrite Hst in Hs'.
  destruct fuel' as [|fuel'].
  - rewrite chunk_loop_out_of_fuel in Hr' by lia. discriminate.
  - rewrite chunk_loop_step in Hr' by lia.
    rewrite (IH fuel') in Hr'; [discriminate | lia |].
    now rewrite loop_body_start, Hs'.
Qed.

(** When the very first window sends the start below zero, the start at
    which the loop re-enters the text either moves on or leads back to
    the same wrapped start. *)
Lemma reentry :
  next_start txt cs ov 0 < 0 ->
  let t := next_start txt cs ov 0 mod (cs - ov) in
  0 <= t < len txt /\ wrapped txt cs (next_start txt cs ov 0) /\
  (t <= next_start txt cs ov t \/ next_start txt cs ov t = next_start txt cs ov 0).
Proof.
  intros Hneg t.
  pose proof (half_bounds cs ov Hcs Hov) as Hh. pose proof (len_nonneg txt) as Hlen.
  assert (Ht : 0 <= t < cs - ov) by (apply Z.mod_pos_bound; lia).
  assert (Hw : wrapped txt cs (next_start txt cs ov 0)).
  { destruct (next_start_reachable txt cs ov Hcs Hov 0) as [?|?];
      [left; lia | lia | assumption]. }
  pose proof Hw as (_ & _ & Hn).
  split; [lia|]. split; [assumption|].
  set (e := window_end txt cs 0).
  assert (Hn0 : next_start txt cs ov 0 = e - ov /\ e < len txt).
  { unfold next_start in Hneg |- *. fold e in Hneg |- *.
    destruct (Z.ltb_spec e (len txt)); [split; [reflexivity | assumption] | lia]. }
  destruct Hn0 as [Hn0 He]. rewrite Hn0 in Hneg.
  destruct (window_end_inside txt cs ov Hcs Hov 0 ltac:(lia) ltac:(lia))
    as [[E _] | (B & Hsp & Hmax)];
    [fold e in E; lia | fold e in B, Hsp, Hmax].
  rewrite Hn0. unfold next_start.
  set (e' := window_end txt cs t).
  destruct (Z.ltb_spec e' (len txt)) as [He'|He']; [|left; lia].
  assert (Hin' : t + cs < len txt).
  { destruct (Z.lt_ge_cases (t + cs) (len txt)); [assumption|].
    subst e'. rewrite (window_end_tail txt cs ov Hcs Hov) in He' by lia. lia. }
  destruct (window_end_inside txt cs ov Hcs Hov t ltac:(lia) Hin')
    as [[E' _] | (B' & Hsp' & Hmax')];
    [fold e' in E'; left; lia | fold e' in B', Hsp', Hmax'].
  assert (e <= e') by (apply Hmax'; [lia | assumption]).
  destruct (Z.lt_ge_cases e' cs) as [Hlow|Hhigh]; [right | left; lia].
  assert (e' <= e) by (apply Hmax; [lia | assumption]).
  lia.
Qed.

Lemma chunk_loop_starts_sorted fuel r :
  0 < len txt ->
  chunk_loop fuel txt cs ov init_state = Some r -> starts_sorted r.
Proof.
  intros Hlen Hrun.
  destruct fuel as [|fuel];
    [rewrite chunk_loop_out_of_fuel in Hrun by (simpl; lia); discriminate|].
  rewrite chunk_loop_step in Hrun by (simpl; lia).
  set (st1 := loop_body txt cs ov init_state) in *.
  assert (Hst1 : start st1 = next_start txt cs ov 0) by (unfold st1; now rewrite loop_body_start).
  assert (Hsorted1 : forall b, 0 <= b ->
            starts_sorted (chunks st1) /\ starts_below b (chunks st1)).
  { intros b Hb. apply body_starts_sorted; simpl; [constructor | constructor | lia]. }
  destruct (Z.lt_ge_cases (next_start txt cs ov 0) 0) as [Hneg|Hpos].
  - destruct (reentry Hneg) as (Ht & Hw & Hcases).
    destruct (wrapped_run fuel st1 r) as (fuel' & st2 & Hf & Hrun2 & Hch2 & Hs2);
      [now rewrite Hst1 | assumption |].
    rewrite Hst1 in Hs2.
    destruct fuel' as [|fuel'];
      [rewrite chunk_loop_out_of_fuel in Hrun2 by lia; discriminate|].
    rewrite chunk_loop_step in Hrun2 by lia.
    destruct Hcases as [Hmove | Hback].
    + destruct (Hsorted1 (start st2)) as [Hso Hbe]; [lia|].
      rewrite <- Hch2 in Hso, Hbe.
      destruct (body_starts_sorted st2 (next_start txt cs ov (start st2)) Hso Hbe)
        as [Hso' Hbe']; [rewrite Hs2; exact Hmove|].
      eapply good_run; [| exact Hso' | | exact Hrun2];
        rewrite loop_body_start; [|assumption].
      apply step_good; rewrite Hs2; lia.
    + rewrite (wrapped_cycle (next_start txt cs ov 0) Hw (proj2 Ht) Hback) in Hrun2;
        [discriminate|].
      now rewrite loop_body_start, Hs2.
  - destruct (Hsorted1 (next_start txt cs ov 0) Hpos) as [Hso Hbe].
    eapply good_run; [| exact Hso | | exact Hrun];
      rewrite Hst1; [|assumption].
    apply step_good; lia.
Qed.

End ChunkerRuns.

(** ** Runs with an overlap of at most half the chunk size *)

Section ChunkerProgress.

Import PyStr Chunker.

Variables (txt : string) (cs ov : Z).
Hypothesis Hcs : 0 < cs.
Hypothesis Hov0 : 0 <= ov.
Hypothesis Hhalf : 2 * ov <= cs.

#[local] Set Default Proof Using "Hcs Hov0 Hhalf".

Lemma overlap_below_half : ov <= cs / 2 /\ ov < cs.
Proof. pose proof (Z.div_mod cs 2). pose proof (Z.mod_pos_bound cs 2). lia. Qed.

(** Every pass moves the start forward. *)
Lemma next_start_progress s :
  0 <= s < len txt ->
  s < next_start txt cs ov s <= len txt /\
  s + ov < window_end txt cs s /\
  (next_start txt cs ov s < len txt ->
   window_end txt cs s = next_start txt cs ov s + ov).
Proof.
  intros Hs. destruct overlap_below_half as [Hh Hlt].
  pose proof (window_end_bounds txt cs ov Hcs Hlt s (proj1 Hs)) as Hb.
  unfold next_start.
  destruct (Z.ltb_spec (window_end txt cs s) (len txt)); lia.
Qed.

Lemma chunk_loop_terminates fuel : forall st,
  0 <= start st -> (Z.to_nat (len txt - start st) <= fuel)%nat ->
  exists r, chunk_loop fuel txt cs ov st = Some r.
Proof.
  induction fuel as [|fuel IH]; intros st H0 Hfuel.
  - exists (chunks st). apply chunk_loop_done. lia.
  - destruct (Z.lt_ge_cases (start st) (len txt)) as [Hlt|Hge].
    + rewrite chunk_loop_step by assumption.
      destruct (next_start_progress (start st)) as (Hp & _); [lia|].
      apply IH; rewrite loop_body_start; lia.
    + exists (chunks st). apply chunk_loop_done. lia.
Qed.

Lemma body_strictly_increasing st :
  0 <= start st < len txt ->
  strictly_increasing (chunks st) ->
  Forall (behind txt ov (start st)) (chunks st) ->
  strictly_increasing (chunks (loop_body txt cs ov st)) /\
  Forall (behind txt ov (next_start txt cs ov (start st)))
         (chunks (loop_body txt cs ov st)).
Proof.
  intros Hs [Hss Hse] Hb.
  destruct (next_start_progress (start st) Hs) as (Hp & He & Hn).
  assert (Hb' : Forall (behind txt ov (next_start txt cs ov (start st))) (chunks st)).
  { eapply Forall_impl; [exact Hb|]. unfold behind. intros c [H1 H2].
    split; [lia|]. intros Hlt. specialize (H2 ltac:(lia)). lia. }
  destruct (loop_body_chunks txt cs ov st) as [-> | (c & -> & Hc & Hce & _)];
    [now repeat split|].
  split; [split|].
  - rewrite map_app. apply sorted_snoc; [assumption|].
    apply Forall_map. eapply Forall_impl; [exact Hb|].
    unfold behind. simpl. intros; lia.
  - rewrite map_app. apply sorted_snoc; [assumption|].
    apply Forall_map. eapply Forall_impl; [exact Hb|].
    unfold behind. simpl. intros y [_ H2]. specialize (H2 ltac:(lia)). lia.
  - apply Forall_app. split; [assumption|]. repeat constructor; [lia|].
    intros Hlt. specialize (Hn Hlt). lia.
Qed.

Lemma run_strictly_increasing fuel : forall st r,
  0 <= start st ->
  strictly_increasing (chunks st) ->
  Forall (behind txt ov (start st)) (chunks st) ->
  chunk_loop fuel txt cs ov st = Some r -> strictly_increasing r.
Proof.
  induction fuel as [|fuel IH]; intros st r H0 Hs Hb Hrun.
  - destruct (Z.lt_ge_cases (start st) (len txt)).
    + rewrite chunk_loop_out_of_fuel in Hrun by assumption. discriminate.
    + rewrite chunk_loop_done in Hrun by assumption. now inversion Hrun; subst.
  - destruct (Z.lt_ge_cases (start st) (len txt)) as [Hlt|Hge].
    + rewrite chunk_loop_step in Hrun by assumption.
      destruct (body_strictly_increasing st) as [Hs' Hb']; [lia | assumption..|].
      destruct (next_start_progress (start st)) as (Hp & _); [lia|].
      eapply IH; [ | exact Hs' | | exact Hrun]; rewrite loop_body_start;
        [lia | assumption].
    + rewrite chunk_loop_done in Hrun by assumption. now inversion Hrun; subst.
Qed.

Lemma chunk_text_strictly_increasing fuel :
  (String.length txt <= fuel)%nat ->
  exists r, chunk_text fuel txt cs ov = Some r /\ strictly_increasing r.
Proof.
  intros Hfuel. unfold chunk_text.
  destruct (negb (truthy txt) || negb (truthy (strip txt))).
  - exists []. split; [reflexivity|]. split; constructor.
  - destruct (chunk_loop_terminates fuel init_state) as [r Hr];
      [simpl; lia | simpl; unfold len; lia |].
    exists r. split; [assumption|].
    eapply run_strictly_increasing; [ | | | exact Hr]; simpl;
      [lia | split; constructor | constructor].
Qed.

End ChunkerProgress.

(** ** The chunker: results *)

Section ChunkerResults.

Import PyStr Chunker.

(** A start that is its own successor is never left. *)
Lemma stuck_start txt cs ov s :
  s < len txt -> next_start txt cs ov s = s ->
  forall fuel st, start st = s -> chunk_loop fuel txt cs ov st = None.
Proof.
  intros Hlt Hfix fuel.
  induction fuel as [|fuel IH]; intros st Hst.
  - apply chunk_loop_out_of_fuel. lia.
  - rewrite chunk_loop_step by lia. apply IH.
    rewrite loop_body_start, Hst. exact Hfix.
Qed.

(** C2, at an input where the loop does not end: chunk_size 10 and
    overlap 6 satisfy [chunk_size > overlap >= 0]; the last space of the
    first window of the text below is at offset 6, beyond the midpoint 5,
    so the window shrinks to 6 and the next start is 6 - 6 = 0 again:
    [chunk_text] returns for no amount of fuel. *)
Theorem chunk_text_stuck_at_word_boundary :
  10 > 6 /\ 6 >= 0 /\
  forall fuel, chunk_text fuel "aaaaaa aaaaaaaaaaaaa" 10 6 = None.
Proof.
  split; [lia|]. split; [lia|]. intros fuel.
  unfold chunk_text. simpl negb. simpl orb. cbv iota.
  apply (stuck_start _ _ _ 0); [vm_compute; reflexivity.. | reflexivity].
Qed.

(** C3: for every text and [chunk_size > overlap >= 0], the chunks that
    [chunk_text] returns have non-decreasing [start_pos]; and when the
    overlap is at most half the chunk size (as with chunk_size 100 and
    overlap 20) the call returns, and both [start_pos] and [end_pos]
    increase strictly from each chunk to the next. *)
Theorem chunk_text_start_pos_monotone txt cs ov :
  0 <= ov < cs ->
  (forall fuel cks, chunk_text fuel txt cs ov = Some cks ->
     StronglySorted Z.le (map start_pos cks)) /\
  (2 * ov <= cs ->
     forall fuel, (String.length txt <= fuel)%nat ->
     exists cks, chunk_text fuel txt cs ov = Some cks /\
       StronglySorted Z.lt (map start_pos cks) /\
       StronglySorted Z.lt (map end_pos cks)).
Proof.
  intros [Hov0 Hov]. split.
  - intros fuel cks. unfold chunk_text.
    destruct txt as [|c txt']; [intros [= <-]; constructor|].
    simpl negb at 1. simpl orb.
    destruct (negb (truthy (strip (String c txt'))));
      [intros [= <-]; constructor|].
    apply (chunk_loop_starts_sorted (String c txt') cs ov); try lia.
    unfold len. simpl. lia.
  - intros Hhalf fuel Hfuel.
    apply chunk_text_strictly_increasing; lia.
Qed.

Lemma chunk_text_start_pos_monotone_witness :
  exists cks, chunk_text 200 python_guide 100 20 = Some cks /\
    StronglySorted Z.lt (map start_pos cks) /\
    StronglySorted Z.lt (map end_pos cks).
Proof.
  apply (proj2 (chunk_text_start_pos_monotone python_guide 100 20 ltac:(lia)));
    [lia | vm_compute; lia].
Defined.

(** C8: for a positive [chunk_size] and an overlap below it, every chunk
    that [chunk_text] returns has a text of at most [chunk_size]
    characters, and so is the ['length'] recorded with it; the same holds
    for every chunk appended after any number of passes through the loop,
    whether or not the loop ever exits. *)
Theorem chunk_text_size_bound txt cs ov :
  0 < cs -> ov < cs ->
  (forall fuel cks, chunk_text fuel txt cs ov = Some cks ->
     Forall (fun c => len (text c) <= cs /\ text_length c <= cs) cks) /\
  (forall k,
     Forall (fun c => len (text c) <= cs /\ text_length c <= cs)
       (chunks (iterate k txt cs ov init_state))).
Proof.
  intros Hcs Hov. split.
  - intros fuel cks. unfold chunk_text.
    destruct (negb (truthy txt) || negb (truthy (strip txt)));
      [intros [= <-]; constructor|].
    intros Hrun.
    apply (run_within_size txt cs ov Hcs Hov fuel init_state);
      [left; simpl; lia | constructor | exact Hrun].
  - intros k.
    apply (iterate_within_size txt cs ov Hcs Hov k init_state);
      [left; simpl; lia | constructor].
Qed.

Lemma chunk_text_size_bound_witness :
  Forall (fun c => len (text c) <= 100 /\ text_length c <= 100)
    (default [] (chunk_text 200 python_guide 100 20)).
Proof.
  apply (proj1 (chunk_text_size_bound python_guide 100 20
                  ltac:(lia) ltac:(lia)) 200%nat).
  vm_compute. reflexivity.
Defined.

(** C10: for the eleven characters of "hello world" and chunk_size 100
    the one chunk returned has [end_pos = start_pos + chunk_size = 100],
    beyond the text's end, and [end_pos - start_pos] exceeds the length of
    the chunk's text. *)
Theorem chunk_text_end_pos_not_clamped :
  chunk_text 5 "hello world" 100 20
  = Some [ {| chunk_id := 1; text := "hello world";
              start_pos := 0; end_pos := 100;
              text_length := 11; word_count := 2 |} ] /\
  exists cks c,
    chunk_text 5 "hello world" 100 20 = Some cks /\
    last cks = Some c /\
    end_pos c = start_pos c + 100 /\
    len "hello world" < end_pos c /\
    len (text c) < end_pos c - start_pos c.
Proof.
  split; [vm_compute; reflexivity|].
  eexists. eexists. split; [vm_compute; reflexivity|].
  split; [reflexivity|]. vm_compute. repeat split; reflexivity.
Qed.

End ChunkerResults.

(** ** The vector index: identifiers and re-indexing *)

Section IndexFacts.

Import PyStr VectorService.

Lemma imap_ext_from {A B} (f g : nat -> A -> B) (l l' : list A)
    (P : A -> A -> Prop) :
  (forall i x y, P x y -> f i x = g i y) ->
  Forall2 P l l' -> imap f l = imap g l'.
Proof.
  intros Hfg HP. revert f g Hfg.
  induction HP as [|x y l l' Hxy _ IH]; intros f g Hfg; simpl; [reflexivity|].
  f_equal; [now apply Hfg|]. apply IH. intros i a b Hab. now apply Hfg.
Qed.

(** The ids of a batch depend on the first 100 characters of each content
    and on the position in the batch, on nothing else. *)
Lemma ids_of_same_prefixes docs docs' :
  Forall2 (fun d d' =>
             slice_to (default "" (doc_content d)) 100
             = slice_to (default "" (doc_content d')) 100) docs docs' ->
  ids_of docs' = ids_of docs.
Proof.
  intros H. unfold ids_of. symmetry.
  eapply imap_ext_from; [|exact H].
  intros i x y Hxy. unfold doc_id. simpl in Hxy. now rewrite Hxy.
Qed.

Lemma put_new_keeps (c : gmap string entry) r id :
  is_Some (c !! id) -> is_Some (put_new c r !! id).
Proof.
  intros H. unfold put_new. destruct (c !! r.1) eqn:E; [assumption|].
  destruct (decide (r.1 = id)) as [->|Hne].
  - rewrite lookup_insert_eq. eauto.
  - now rewrite lookup_insert_ne.
Qed.

Lemma put_new_adds (c : gmap string entry) r : is_Some (put_new c r !! r.1).
Proof.
  unfold put_new. destruct (c !! r.1) eqn:E; [rewrite E; eauto|].
  rewrite lookup_insert_eq. eauto.
Qed.

Lemma foldl_put_new_keeps records : forall (c : gmap string entry) id,
  is_Some (c !! id) -> is_Some (foldl put_new c records !! id).
Proof.
  induction records as [|r records IH]; intros c id H; simpl; [assumption|].
  apply IH. now apply put_new_keeps.
Qed.

Lemma foldl_put_new_adds records : forall (c : gmap string entry) id,
  In id (map fst records) -> is_Some (foldl put_new c records !! id).
Proof.
  induction records as [|r records IH]; intros c id H; simpl in *; [tauto|].
  destruct H as [<-|H].
  - apply foldl_put_new_keeps, put_new_adds.
  - now apply IH.
Qed.

Lemma foldl_put_new_present records : forall (c : gmap string entry),
  (forall id, In id (map fst records) -> is_Some (c !! id)) ->
  foldl put_new c records = c.
Proof.
  induction records as [|r records IH]; intros c H; simpl; [reflexivity|].
  assert (Hr : put_new c r = c).
  { unfold put_new. destruct (H r.1) as [e ->]; [simpl; auto | reflexivity]. }
  rewrite Hr. apply IH. intros id Hid. apply H. simpl. auto.
Qed.

Lemma records_keys {A B} (ids : list A) (es : list B) :
  length es = length ids -> map fst (zip ids es) = ids.
Proof.
  revert es. induction ids as [|i ids IH]; intros [|e es] Hlen; simpl in *;
    try reflexivity; try discriminate.
  f_equal. apply IH. lia.
Qed.

Lemma batch_lengths vs documents :
  length (zip_with (fun de m => mk_entry de.1 de.2 m)
            (zip (texts_of documents)
                 (map (embedding_model vs) (texts_of documents)))
            (metadatas_of documents))
  = length (ids_of documents).
Proof.
  unfold ids_of, texts_of, metadatas_of.
  rewrite length_zip_with, length_zip_with, !length_map, length_imap. lia.
Qed.

(** When [collection.add] does not raise, every id of the batch is
    stored. *)
Lemma collection_add_stores cl c docs embs mds ids c' :
  length (zip_with (fun de m => mk_entry de.1 de.2 m) (zip docs embs) mds)
    = length ids ->
  collection_add cl c docs embs mds ids = Some c' ->
  ids <> [] /\ forall id, In id ids -> is_Some (c' !! id).
Proof.
  intros Hlen. unfold collection_add.
  case_bool_decide as Hnil; [discriminate|].
  case_bool_decide; [discriminate|].
  destruct (negb _); [discriminate|].
  assert (Hall : forall id, In id ids ->
            is_Some (foldl put_new c
              (zip ids (zip_with (fun de m => mk_entry de.1 de.2 m)
                          (zip docs embs) mds)) !! id)).
  { intros id Hid. apply foldl_put_new_adds. now rewrite records_keys. }
  destruct (on_existing_id cl).
  - case_bool_decide; [discriminate|]. intros [= <-]. auto.
  - intros [= <-]. auto.
Qed.

Lemma collection_add_again cl c docs embs mds ids :
  length (zip_with (fun de m => mk_entry de.1 de.2 m) (zip docs embs) mds)
    = length ids ->
  ids <> [] -> (forall id, In id ids -> is_Some (c !! id)) ->
  collection_add cl c docs embs mds ids = None \/
  collection_add cl c docs embs mds ids = Some c.
Proof.
  intros Hlen Hnil Hall. unfold collection_add.
  case_bool_decide; [tauto|].
  case_bool_decide; [now left|].
  destruct (negb _); [now left|].
  destruct (on_existing_id cl).
  - left. case_bool_decide as Hex; [reflexivity|]. exfalso. apply Hex.
    destruct ids as [|id ids]; [tauto|].
    apply Exists_cons_hd. apply Hall. simpl. auto.
  - right. f_equal. apply foldl_put_new_present.
    intros id Hid. apply Hall. now rewrite records_keys in Hid.
Qed.

(** C1, as the code has it: the id is the MD5 digest of the first 100
    characters of the content followed by "_" and the position in the
    batch.  A second batch whose chunks agree, position by position, with
    the first one on those 100 characters gets the same ids; once the
    first batch has been added ([add_documents] returned True), adding the
    second leaves [total_chunks] as it was, whatever its metadata and
    whatever the store does with an id it already holds. *)
Theorem add_documents_same_batch_idempotent vs docs docs' :
  (add_documents vs docs).1 = true ->
  Forall2 (fun d d' =>
             slice_to (default "" (doc_content d)) 100
             = slice_to (default "" (doc_content d')) 100) docs docs' ->
  ids_of docs' = ids_of docs /\
  total_chunks (get_stats (add_documents (add_documents vs docs).2 docs').2)
  = total_chunks (get_stats (add_documents vs docs).2).
Proof.
  intros Hok Hsame.
  pose proof (ids_of_same_prefixes docs docs' Hsame) as Hids.
  split; [exact Hids|].
  revert Hok. unfold add_documents at 1 3 4.
  destruct (collection_add (client vs) (collection vs) (texts_of docs)
              (map (embedding_model vs) (texts_of docs)) (metadatas_of docs)
              (ids_of docs)) as [c1|] eqn:Hfirst; simpl; [|discriminate].
  intros _.
  destruct (collection_add_stores _ _ _ _ _ _ _ (batch_lengths vs docs) Hfirst)
    as [Hnil Hall].
  unfold add_documents. simpl.
  destruct (collection_add_again (client vs) c1 (texts_of docs')
              (map (embedding_model vs) (texts_of docs'))
              (metadatas_of docs') (ids_of docs')) as [-> | ->];
    try reflexivity.
  - apply (batch_lengths (mk_service (client vs) (embedding_model vs) c1)).
  - now rewrite Hids.
  - now rewrite Hids.
Qed.

End IndexFacts.

(** ** The vector index: concrete runs *)

Section IndexRuns.

Import PyStr VectorService.

Lemma add_documents_same_batch_idempotent_witness :
  ids_of [chunk_of "alpha"; chunk_of "beta"]
  = ids_of [chunk_of "alpha"; chunk_of "beta"] /\
  total_chunks (get_stats
    (add_documents
       (add_documents empty_service [chunk_of "alpha"; chunk_of "beta"]).2
       [chunk_of "alpha"; chunk_of "beta"]).2)
  = total_chunks (get_stats
      (add_documents empty_service [chunk_of "alpha"; chunk_of "beta"]).2).
Proof.
  apply (add_documents_same_batch_idempotent empty_service
           [chunk_of "alpha"; chunk_of "beta"]
           [chunk_of "alpha"; chunk_of "beta"]).
  - vm_compute. reflexivity.
  - repeat constructor.
Defined.

(** C1 as stated fails: the position in the batch enters the hash.  After
    indexing "alpha" and "beta", indexing the same two contents in the
    other order stores two more records. *)
Lemma add_documents_same_content_new_position :
  doc_id "alpha" 0 <> doc_id "alpha" 1 /\
  total_chunks (get_stats
    (add_documents empty_service [chunk_of "alpha"; chunk_of "beta"]).2) = 2 /\
  total_chunks (get_stats
    (add_documents
       (add_documents empty_service [chunk_of "alpha"; chunk_of "beta"]).2
       [chunk_of "beta"; chunk_of "alpha"]).2) = 4.
Proof.
  split; [vm_compute; discriminate|].
  split; vm_compute; reflexivity.
Qed.

(** A batch whose document has no metadata is refused and stores
    nothing; the same content added afterwards with metadata is new. *)
Example add_documents_needs_metadata :
  add_documents empty_service [doc_of "alpha"] = (false, empty_service) /\
  total_chunks (get_stats
    (add_documents (add_documents empty_service [doc_of "alpha"]).2
       [chunk_of "alpha"]).2) = 1.
Proof. split; vm_compute; reflexivity. Qed.

End IndexRuns.

(** ** Similarity scores *)

Section ScoreFacts.

Import VectorService.

Local Open Scope R_scope.

Lemma dot_cons x u y v : dot (x :: u) (y :: v) = x * y + dot u v.
Proof. reflexivity. Qed.

Lemma dot_self_nonneg u : 0 <= dot u u.
Proof.
  induction u as [|x u IH]; [unfold dot; simpl; lra|].
  rewrite dot_cons. nra.
Qed.






Lemma cosine_distance_same u : dot u u <> 0 -> cosine_distance u u = 0.
Proof.
  intros Hnz. unfold cosine_distance.
  rewrite sqrt_sqrt by apply dot_self_nonneg.
  unfold Rdiv. rewrite Rinv_r by assumption. lra.
Qed.


Lemma format_hits_from cl q (hits : list entry) :
  forall (k : nat) (pm : list metadata) (pd : list R),
  length pm = k -> length pd = k ->
  mapM (fun r => r)
    (imap (fun i doc =>
             md ← (pm ++ map e_metadata hits)%list !! (k + i)%nat;
             sc ← (fun d => 1 - d) <$>
                  (pd ++ map (fun e => distance cl q (e_embedding e)) hits)%list
                  !! (k + i)%nat;
             Some {| content := doc; metadata_of := md; score := sc |})
          (map e_document hits))
  = Some (map (result_of cl q) hits).
Proof.
  induction hits as [|e hits IH]; intros k pm pd Hm Hd; [reflexivity|].
  simpl. rewrite Nat.add_0_r.
  rewrite !lookup_app_r by lia. rewrite Hm, Hd, Nat.sub_diag. simpl.
  specialize (IH (S k) (pm ++ [e_metadata e])%list
                (pd ++ [distance cl q (e_embedding e)])%list).
  rewrite !length_app in IH. simpl in IH.
  specialize (IH ltac:(lia) ltac:(lia)).
  rewrite <- !app_assoc in IH. simpl in IH.
  erewrite imap_ext; [rewrite IH; reflexivity|].
  intros i doc _. simpl. now rewrite Nat.add_succ_r.
Qed.

Lemma format_results_of_hits cl q (hits : list entry) :
  format_results
    {| documents := [map e_document hits];
       metadatas := [map e_metadata hits];
       distances := [map (fun e => distance cl q (e_embedding e)) hits] |}
  = Some (map (result_of cl q) hits).
Proof.
  unfold format_results. simpl.
  destruct (nonempty (map e_document hits)) eqn:E.
  - apply (format_hits_from cl q hits 0%nat [] []); reflexivity.
  - destruct hits; [reflexivity | discriminate].
Qed.

Lemma mapM_lookup_hits (c : gmap string entry) ids hits e :
  mapM (fun id => c !! id) ids = Some hits -> In e hits ->
  exists id, c !! id = Some e.
Proof.
  revert hits. induction ids as [|id ids IH]; intros hits H Hin.
  - inversion H; subst. destruct Hin.
  - simpl in H. destruct (c !! id) as [e0|] eqn:E; [|discriminate].
    simpl in H. destruct (mapM _ ids) as [hits0|] eqn:E0; [|discriminate].
    inversion H; subst. destruct Hin as [<-|Hin]; [eauto|].
    now apply (IH hits0).
Qed.

(** What [search_similar] returns, in terms of the selected entries. *)
Lemma search_similar_hits vs query max_docs r :
  In r (search_similar vs query max_docs) ->
  exists id e, collection vs !! id = Some e /\
               r = result_of (client vs) (embedding_model vs query) e.
Proof.
  unfold search_similar, collection_query.
  destruct (knn _ _ _ _) as [ids|]; simpl; [|tauto].
  destruct (mapM _ ids) as [hits|] eqn:Hhits; simpl; [|tauto].
  rewrite format_results_of_hits. simpl.
  intros Hin. apply in_map_iff in Hin as (e & <- & He).
  destruct (mapM_lookup_hits _ _ _ _ Hhits He) as [id Hid]. eauto.
Qed.


End ScoreFacts.

(** ** Similarity scores: a concrete index *)

Section ScoreRuns.

Import VectorService.

Local Open Scope R_scope.


Lemma rounding_search :
  search_similar rounding_service "query" 5
  = [result_of (client rounding_service) [1] same_entry].
Proof.
  unfold search_similar, collection_query, rounding_service.
  cbn [client knn collection embedding_model mbind option_bind mapM].
  rewrite lookup_singleton_eq.
  cbn [mbind option_bind mret option_ret fmap option_fmap option_map].
  rewrite format_results_of_hits. reflexivity.
Qed.


Lemma same_distance : cosine_distance [1] [1] = 0.
Proof. apply cosine_distance_same. unfold dot. simpl. lra. Qed.


(** With such a store the score of a vector identical to the query
    embedding exceeds 1. *)
Lemma search_similar_score_above_one :
  exists r, search_similar rounding_service "query" 5 = [r] /\
            score r = 1 + / 8388608 /\ 1 < score r.
Proof.
  exists (result_of (client rounding_service) [1] same_entry).
  split; [apply rounding_search|].
  assert (E : score (result_of (client rounding_service) [1] same_entry)
              = 1 + / 8388608).
  { simpl. rewrite same_distance. lra. }
  split; [exact E|]. rewrite E. lra.
Qed.


End ScoreRuns.

(** ** More string facts: prefixes, substrings, containment *)

Section PyStrMoreFacts.

Import PyStr.

Lemma prefix_app s t : String.prefix s (s +:+ t) = true.
Proof.
  induction s as [|c s IH]; simpl; [now destruct t|].
  destruct (ascii_dec c c); [assumption | congruence].
Qed.

Lemma contains_prefix sub s : String.prefix sub s = true -> contains sub s = true.
Proof.
  intros H. destruct s as [|c s]; [exact H|].
  change (String.prefix sub (String c s) || contains sub s = true).
  now rewrite H.
Qed.

Lemma contains_app sub pre post :
  contains sub (pre +:+ sub +:+ post) = true.
Proof.
  induction pre as [|c pre IH].
  - change (contains sub (sub +:+ post) = true).
    apply contains_prefix, prefix_app.
  - change (contains sub (String c (pre +:+ sub +:+ post)) = true).
    simpl. rewrite IH. apply orb_true_r.
Qed.






End PyStrMoreFacts.

(** ** Generation with fallback: results *)

Section LLMFacts.

Import PyStr VectorService LLM.

Lemma search_similar_empty vs query max_docs :
  collection vs = ∅ -> search_similar vs query max_docs = [].
Proof.
  intros Hc. unfold search_similar, collection_query. rewrite Hc.
  destruct (knn _ _ _ _) as [[|id ids]|]; reflexivity.
Qed.




Lemma retrieve_context svc query use_rag max_docs :
  (retrieve svc query use_rag max_docs).2
  = rag_context_of (retrieve svc query use_rag max_docs).1.
Proof.
  unfold retrieve. destruct use_rag; [|reflexivity].
  destruct (vector_service svc) as [vs|]; [|reflexivity].
  destruct (search_similar vs query max_docs); reflexivity.
Qed.





End LLMFacts.

(** ** Generation with fallback: the success flag and the empty index *)

Section FallbackFacts.

Import PyStr VectorService LLM.

(** C9: whatever the backend does, the result carries [success = true]. *)
Theorem process_query_always_succeeds svc query context use_rag max_docs :
  success (process_query svc query context use_rag max_docs) = true.
Proof.
  unfold process_query.
  destruct (retrieve svc query use_rag max_docs) as [sources rag_context].
  destruct (groq_client svc) as [call|]; [|reflexivity].
  destruct (call _); reflexivity.
Qed.

(** C5: with no generation backend and nothing indexed, a query with
    [use_rag = true] is answered by the fallback: success, no sources,
    and the answer "Processing: <query> (AI service not available)",
    which contains the query text. *)
Theorem fallback_on_empty_index svc query context max_docs :
  groq_client svc = None ->
  (forall vs, vector_service svc = Some vs -> collection vs = ∅) ->
  success (process_query svc query context true max_docs) = true /\
  sources (process_query svc query context true max_docs) = [] /\
  answer (process_query svc query context true max_docs)
  = "Processing: " +:+ query +:+ " (AI service not available)" /\
  contains query (answer (process_query svc query context true max_docs))
  = true.
Proof.
  intros Hno Hempty.
  assert (Hret : retrieve svc query true max_docs = ([], "")).
  { unfold retrieve. destruct (vector_service svc) as [vs|]; [|reflexivity].
    now rewrite (search_similar_empty vs query max_docs (Hempty vs eq_refl)). }
  unfold process_query. rewrite Hret, Hno.
  unfold fallback_response. cbn [nonempty answer sources success].
  repeat split. apply contains_app.
Qed.

Lemma fallback_on_empty_index_witness :
  success (process_query offline_service "What is RAG?" None true 5) = true /\
  sources (process_query offline_service "What is RAG?" None true 5) = [] /\
  answer (process_query offline_service "What is RAG?" None true 5)
  = "Processing: What is RAG? (AI service not available)" /\
  contains "What is RAG?"
    (answer (process_query offline_service "What is RAG?" None true 5)) = true.
Proof.
  apply (fallback_on_empty_index offline_service "What is RAG?" None 5).
  - reflexivity.
  - intros vs [= <-]. reflexivity.
Defined.


End FallbackFacts.

(** ** The query endpoint: acknowledging the conversation *)

Section FrontendFacts.

Import PyStr VectorService Frontend.

Lemma lower_char_space c : isspace c = true -> lower_char c = c.
Proof.
  destruct c as [[] [] [] [] [] [] [] []]; intros H;
    solve [reflexivity | discriminate H].
Qed.

Lemma lower_chars s c :
  In c (list_ascii_of_string (lower s)) ->
  exists c0, In c0 (list_ascii_of_string s) /\ c = lower_char c0.
Proof.
  induction s as [|d s IH]; simpl; [tauto|].
  intros [<-|H]; [eauto|].
  destruct (IH H) as (c0 & H0 & ->). eauto.
Qed.

Lemma prefix_head c w d s :
  String.prefix (String c w) (String d s) = true -> c = d.
Proof. simpl. destruct (ascii_dec c d); [auto | discriminate]. Qed.

Lemma contains_head c w s :
  contains (String c w) s = true -> In c (list_ascii_of_string s).
Proof.
  induction s as [|d s IH]; [discriminate|].
  change (String.prefix (String c w) (String d s) || contains (String c w) s
          = true -> In c (d :: list_ascii_of_string s)).
  intros H. apply orb_prop in H as [H|H].
  - left. symmetry. now apply prefix_head in H.
  - right. now apply IH.
Qed.

Lemma rstrip_nonspace_head c r :
  isspace c = false -> truthy (rstrip (String c r)) = true.
Proof. intros H. simpl. rewrite H. now destruct (rstrip r). Qed.

Lemma strip_nonblank s c :
  In c (list_ascii_of_string s) -> isspace c = false ->
  truthy (strip s) = true.
Proof.
  unfold strip. induction s as [|d s IH]; simpl; [tauto|].
  intros Hin Hc. destruct (isspace d) eqn:Hd.
  - destruct Hin as [->|Hin]; [congruence | now apply IH].
  - now apply rstrip_nonspace_head.
Qed.

(** A question that holds one of the cue words is not blank. *)
Lemma cue_word_nonblank q :
  existsb (fun word => contains word (lower q)) cue_words = true ->
  truthy (strip q) = true.
Proof.
  intros H.
  assert (Hhead : exists c w, contains (String c w) (lower q) = true /\
                              isspace c = false).
  { unfold cue_words in H. simpl in H.
    repeat (apply orb_prop in H as [H|H]);
      try (eexists _, _; split; [exact H | reflexivity]).
    discriminate H. }
  destruct Hhead as (c & w & Hcont & Hc).
  apply contains_head in Hcont.
  apply lower_chars in Hcont as (c0 & Hin & ->).
  apply (strip_nonblank q c0 Hin).
  destruct (isspace c0) eqn:E; [|reflexivity].
  rewrite (lower_char_space c0 E) in Hc. congruence.
Qed.

(** C6, as the code has it: with the LLM service at hand, a non-empty
    history, a generated answer holding neither "previous" nor "context"
    (case-insensitively) and a question whose lower-cased text holds one
    of the cue words, the answer returned is "Based on our
    conversation, " followed by the generated answer. *)
Theorem acknowledge_prefix svc req :
  context req <> [] ->
  let generated :=
    LLM.answer
      (LLM.process_query svc
         (enhanced_question_of (context_text_of (context req)) (question req))
         None true (max_results req)) in
  contains "previous" (lower generated) = false ->
  contains "context" (lower generated) = false ->
  existsb (fun word => contains word (lower (question req))) cue_words = true ->
  exists resp,
    query_for_frontend (Some svc) req = Ok resp /\
    answer resp = "Based on our conversation, " +:+ generated.
Proof.
  intros Hctx generated Hprev Hcon Hcue.
  unfold query_for_frontend.
  rewrite (cue_word_nonblank _ Hcue). simpl negb. cbv iota.
  eexists. split; [reflexivity|].
  cbn [answer]. fold generated. unfold acknowledge.
  rewrite Hprev, Hcon, Hcue.
  destruct (context req); [congruence | reflexivity].
Qed.

Lemma acknowledge_prefix_witness :
  exists resp,
    query_for_frontend (Some plain_service) follow_up = Ok resp /\
    answer resp = "Based on our conversation, Chunks are text windows.".
Proof.
  apply (acknowledge_prefix plain_service follow_up).
  - discriminate.
  - vm_compute. reflexivity.
  - vm_compute. reflexivity.
  - vm_compute. reflexivity.
Defined.

(** C6 as stated fails: the history is non-empty, the generated answer
    lacks the word "context" and the question holds "explain" and
    "more", yet the answer comes back without the prefix, because it
    holds "previous". *)
Lemma acknowledge_skipped_on_previous :
  context follow_up <> [] /\
  contains "context" "See the previous section." = false /\
  contains "explain" (question follow_up) = true /\
  exists resp,
    query_for_frontend (Some recalling_service) follow_up = Ok resp /\
    answer resp = "See the previous section." /\
    startswith (answer resp) "Based on our conversation, " = false.
Proof.
  split; [discriminate|]. split; [reflexivity|]. split; [reflexivity|].
  eexists. split; [vm_compute; reflexivity|].
  split; reflexivity.
Qed.

End FrontendFacts.

(** * Further properties of the code *)

(** ** Stripping, slicing and counting words *)

Section StripFacts.

Import PyStr.

Lemma lstrip_all_space s : all_space s -> lstrip s = EmptyString.
Proof.
  induction s as [|c s IH]; intros H; simpl; [reflexivity|].
  rewrite (H c) by (simpl; auto). apply IH. intros d Hd. apply H. simpl. auto.
Qed.

Lemma all_space_strip s : all_space s -> strip s = EmptyString.
Proof. intros H. unfold strip. now rewrite lstrip_all_space. Qed.

Lemma strip_empty_all_space s : strip s = EmptyString -> all_space s.
Proof.
  intros Hs c Hin. destruct (isspace c) eqn:E; [reflexivity|].
  pose proof (strip_nonblank s c Hin E) as Ht. rewrite Hs in Ht. discriminate.
Qed.

Lemma lstrip_head s :
  lstrip s = EmptyString \/
  exists c r, lstrip s = String c r /\ isspace c = false.
Proof.
  induction s as [|c s IH]; simpl; [now left|].
  destruct (isspace c) eqn:E; [assumption | right; eauto].
Qed.

Lemma rstrip_head c r :
  rstrip (String c r) = EmptyString \/ exists r', rstrip (String c r) = String c r'.
Proof.
  simpl. destruct (rstrip r); [destruct (isspace c)|]; eauto.
Qed.

Lemma rstrip_last s :
  forall c, last (list_ascii_of_string (rstrip s)) = Some c -> isspace c = false.
Proof.
  induction s as [|d s IH]; intros c; simpl; [discriminate|].
  destruct (rstrip s) as [|e r] eqn:E.
  - destruct (isspace d) eqn:Ed; simpl; [discriminate|].
    now intros [= <-].
  - intros H. apply IH. exact H.
Qed.

Lemma strip_trimmed s : trimmed (strip s).
Proof.
  split.
  - intros c. unfold strip.
    destruct (lstrip_head s) as [-> | (d & r & -> & Hd)]; [discriminate|].
    destruct (rstrip_head d r) as [-> | [r' ->]]; [discriminate|].
    simpl. now intros [= <-].
  - apply rstrip_last.
Qed.

Lemma count_words_nonneg s : forall b, 0 <= count_words b s.
Proof.
  induction s as [|c s IH]; intros b; simpl; [lia|].
  destruct (isspace c); [apply IH|].
  pose proof (IH true). destruct b; lia.
Qed.

Lemma count_words_positive s c :
  In c (list_ascii_of_string s) -> isspace c = false ->
  1 <= count_words false s.
Proof.
  induction s as [|d s IH]; simpl; [tauto|].
  intros Hin Hc. destruct (isspace d) eqn:Hd.
  - destruct Hin as [->|Hin]; [congruence | now apply IH].
  - pose proof (count_words_nonneg s true). lia.
Qed.

Lemma nonempty_has_char s :
  s <> EmptyString -> exists c, head (list_ascii_of_string s) = Some c.
Proof. destruct s as [|c s]; [congruence | simpl; eauto]. Qed.

Lemma head_in {A} (l : list A) x : head l = Some x -> In x l.
Proof. destruct l; [discriminate | intros [= <-]; simpl; auto]. Qed.

Lemma substring_all s : forall m,
  (String.length s <= m)%nat -> substring 0 m s = s.
Proof.
  induction s as [|c s IH]; intros [|m] H; simpl in *; try reflexivity; try lia.
  f_equal. apply IH. lia.
Qed.

Lemma get_in_substring s : forall n m p c,
  String.get p s = Some c -> (n <= p < n + m)%nat ->
  In c (list_ascii_of_string (substring n m s)).
Proof.
  induction s as [|d s IH]; intros n m p c Hget Hp; [discriminate|].
  destruct p as [|p]; simpl in Hget.
  - inversion Hget; subst. destruct n; [|lia]. destruct m; [lia|]. simpl. auto.
  - destruct n as [|n].
    + destruct m as [|m]; [lia|]. simpl. right.
      apply (IH 0%nat m p); [assumption | lia].
    + simpl. apply (IH n m p); [assumption | lia].
Qed.

Lemma get_lt s : forall p c, String.get p s = Some c -> (p < String.length s)%nat.
Proof.
  induction s as [|d s IH]; intros p c H; [discriminate|].
  destruct p; simpl in *; [lia|]. apply IH in H. lia.
Qed.

(** A character of the text at an offset inside a slice is a character
    of the slice. *)
Lemma get_in_slice txt i j p c :
  0 <= i <= p -> p < j ->
  String.get (Z.to_nat p) txt = Some c ->
  In c (list_ascii_of_string (slice txt i j)).
Proof.
  intros Hi Hj Hget. pose proof (get_lt _ _ _ Hget) as Hlt.
  unfold slice, norm_index.
  destruct (Z.ltb_spec i 0), (Z.ltb_spec j 0); try lia.
  apply (get_in_substring txt _ _ (Z.to_nat p)); [assumption|].
  unfold len. lia.
Qed.

Lemma slice_whole txt j : len txt <= j -> slice txt 0 j = txt.
Proof.
  intros Hj. pose proof (len_nonneg txt). unfold slice, norm_index.
  destruct (Z.ltb_spec 0 0), (Z.ltb_spec j 0); try lia.
  rewrite (Z.min_l 0), (Z.min_r j) by lia.
  apply substring_all. unfold len. lia.
Qed.

End StripFacts.

(** ** The chunker: what every returned chunk looks like *)

Section ChunkerShape.

Import PyStr Chunker.

(** The two outcomes of one pass, with the chunk it appends. *)
Lemma loop_body_cases txt cs ov st :
  (truthy (window_text txt cs (start st)) = false /\
   chunks (loop_body txt cs ov st) = chunks st /\
   next_id (loop_body txt cs ov st) = next_id st)
  \/
  (truthy (window_text txt cs (start st)) = true /\
   chunks (loop_body txt cs ov st)
   = (chunks st ++
      [ {| chunk_id := next_id st;
           text := window_text txt cs (start st);
           start_pos := start st;
           end_pos := window_end txt cs (start st);
           text_length := len (window_text txt cs (start st));
           word_count := count_words false (window_text txt cs (start st)) |} ])%list /\
   next_id (loop_body txt cs ov st) = next_id st + 1).
Proof.
  unfold loop_body. destruct (truthy _) eqn:E; [right | left]; auto.
Qed.

(** The rule for a property kept by every pass. *)
Lemma chunk_loop_invariant txt cs ov (P : loop_state -> Prop) :
  (forall st, start st < len txt -> P st -> P (loop_body txt cs ov st)) ->
  forall fuel st r,
    P st -> chunk_loop fuel txt cs ov st = Some r ->
    exists st', P st' /\ chunks st' = r /\ len txt <= start st'.
Proof.
  intros Hstep fuel.
  induction fuel as [|fuel IH]; intros st r HP Hrun;
    destruct (Z.lt_ge_cases (start st) (len txt)) as [Hlt|Hge].
  - rewrite chunk_loop_out_of_fuel in Hrun by assumption. discriminate.
  - rewrite chunk_loop_done in Hrun by assumption.
    inversion Hrun; subst. eauto.
  - rewrite chunk_loop_step in Hrun by assumption.
    apply (IH _ _ (Hstep st Hlt HP) Hrun).
  - rewrite chunk_loop_done in Hrun by assumption.
    inversion Hrun; subst. eauto.
Qed.

Lemma loop_body_numbered txt cs ov st :
  numbered st -> numbered (loop_body txt cs ov st).
Proof.
  intros [Hids Hnext]. unfold numbered.
  destruct (loop_body_cases txt cs ov st) as [(_ & -> & ->) | (_ & -> & ->)];
    [now split|].
  rewrite length_app, map_app, Hids. simpl length.
  rewrite Nat.add_1_r, seq_S, map_app. simpl.
  split; [f_equal; f_equal; lia | lia].
Qed.

(** X1: the chunk ids of a returned list are 1, 2, 3, ... in order,
    whatever the chunk size and the overlap. *)
Theorem chunk_text_ids_consecutive fuel txt cs ov cks :
  chunk_text fuel txt cs ov = Some cks ->
  map chunk_id cks = map Z.of_nat (seq 1 (length cks)).
Proof.
  unfold chunk_text.
  destruct (negb (truthy txt) || negb (truthy (strip txt)));
    [now intros [= <-]|].
  intros Hrun.
  destruct (chunk_loop_invariant txt cs ov numbered
              (fun st _ => loop_body_numbered txt cs ov st)
              fuel init_state cks) as (st & [Hids _] & <- & _);
    [split; reflexivity | assumption | assumption].
Qed.

Lemma chunk_text_ids_consecutive_witness :
  map chunk_id (default [] (chunk_text 200 python_guide 100 20))
  = map Z.of_nat
      (seq 1 (length (default [] (chunk_text 200 python_guide 100 20)))).
Proof.
  apply (chunk_text_ids_consecutive 200 python_guide 100 20).
  vm_compute. reflexivity.
Defined.

(** X2: a text made of whitespace only yields no chunk, whatever the
    parameters; the loop is not entered. *)
Theorem chunk_text_blank fuel txt cs ov :
  all_space txt -> chunk_text fuel txt cs ov = Some [].
Proof.
  intros H. unfold chunk_text. rewrite (all_space_strip txt H). simpl.
  now rewrite orb_true_r.
Qed.

Lemma chunk_text_blank_witness :
  chunk_text 0 (" " +:+ nl +:+ "  ") 100 20 = Some [].
Proof.
  apply chunk_text_blank. intros c Hin. simpl in Hin.
  repeat (destruct Hin as [<-|Hin]; [reflexivity|]). destruct Hin.
Defined.

Section Shape.

Variables (txt : string) (cs ov : Z).
Hypothesis Hcs : 0 < cs.
Hypothesis Hov : ov < cs.

#[local] Set Default Proof Using "Hcs Hov".

Lemma loop_body_shaped st :
  start st < len txt -> shaped txt cs st -> shaped txt cs (loop_body txt cs ov st).
Proof.
  intros Hlt [Hr Hall]. split.
  - rewrite loop_body_start. now apply next_start_reachable.
  - destruct (loop_body_cases txt cs ov st) as [(_ & -> & _) | (Ht & -> & _)];
      [assumption|].
    apply Forall_app. split; [assumption|]. repeat constructor; simpl.
    + destruct Hr as [H0 | Hw]; [assumption|].
      rewrite (window_text_wrapped txt cs ov Hcs Hov _ Hw) in Ht. discriminate.
    + assumption.
    + destruct Hr as [H0 | Hw].
      * apply (window_end_bounds txt cs ov Hcs Hov _ H0).
      * rewrite (window_text_wrapped txt cs ov Hcs Hov _ Hw) in Ht. discriminate.
    + destruct Hr as [H0 | Hw].
      * apply (window_end_bounds txt cs ov Hcs Hov _ H0).
      * rewrite (window_text_wrapped txt cs ov Hcs Hov _ Hw) in Ht. discriminate.
    + intros E. rewrite E in Ht. discriminate.
Qed.

Lemma chunk_text_shaped fuel cks :
  chunk_text fuel txt cs ov = Some cks ->
  Forall (well_formed_chunk txt cs) cks.
Proof.
  unfold chunk_text.
  destruct (negb (truthy txt) || negb (truthy (strip txt)));
    [intros [= <-]; constructor|].
  intros Hrun.
  destruct (chunk_loop_invariant txt cs ov (shaped txt cs) loop_body_shaped
              fuel init_state cks) as (st & [_ Hall] & <- & _);
    [split; [left; simpl; lia | constructor] | assumption | assumption].
Qed.

End Shape.

(** X3: for a positive chunk size and an overlap below it, every returned
    chunk starts inside the text, ends beyond the midpoint of its window
    and at most [chunk_size] after its start, carries the stripped slice
    [text[start_pos:end_pos]], which is not empty, its length and its
    number of words. *)
Theorem chunk_text_chunks_well_formed txt cs ov fuel cks :
  0 < cs -> ov < cs ->
  chunk_text fuel txt cs ov = Some cks ->
  Forall (well_formed_chunk txt cs) cks.
Proof. intros Hcs Hov. now apply (chunk_text_shaped txt cs ov Hcs Hov). Qed.

Lemma chunk_text_chunks_well_formed_witness :
  Forall (well_formed_chunk python_guide 100)
    (default [] (chunk_text 200 python_guide 100 20)).
Proof.
  apply (chunk_text_chunks_well_formed python_guide 100 20 200);
    [lia | lia | vm_compute; reflexivity].
Defined.

(** X4: the text of every returned chunk neither begins nor ends with a
    whitespace character, and its word count is at least 1. *)
Theorem chunk_text_chunks_trimmed txt cs ov fuel cks :
  0 < cs -> ov < cs ->
  chunk_text fuel txt cs ov = Some cks ->
  Forall (fun c => trimmed (text c) /\ 1 <= word_count c) cks.
Proof.
  intros Hcs Hov Hrun.
  pose proof (chunk_text_shaped txt cs ov Hcs Hov fuel cks Hrun) as Hall.
  eapply Forall_impl; [exact Hall|].
  intros c (_ & _ & Htext & Hne & _ & Hwc). split.
  - rewrite Htext. apply strip_trimmed.
  - rewrite Hwc.
    destruct (nonempty_has_char _ Hne) as [d Hd].
    apply (count_words_positive _ d); [now apply head_in|].
    pose proof (strip_trimmed
                  (slice txt (start_pos c) (end_pos c))) as [Hhead _].
    apply Hhead. now rewrite <- Htext.
Qed.

Lemma chunk_text_chunks_trimmed_witness :
  Forall (fun c => trimmed (text c) /\ 1 <= word_count c)
    (default [] (chunk_text 200 python_guide 100 20)).
Proof.
  apply (chunk_text_chunks_trimmed python_guide 100 20 200);
    [lia | lia | vm_compute; reflexivity].
Defined.

(** X5: a text that is not blank and fits in one window comes back as one
    chunk: id 1, the stripped text, [start_pos = 0] and
    [end_pos = chunk_size]; one pass is enough, for any overlap. *)
Theorem chunk_text_single_window txt cs ov fuel :
  truthy (strip txt) = true -> len txt <= cs ->
  chunk_text (S fuel) txt cs ov
  = Some [ {| chunk_id := 1;
              text := strip txt;
              start_pos := 0;
              end_pos := cs;
              text_length := len (strip txt);
              word_count := count_words false (strip txt) |} ].
Proof.
  intros Hne Hfit. unfold chunk_text. rewrite Hne.
  assert (Htxt : truthy txt = true) by (destruct txt; [discriminate | reflexivity]).
  rewrite Htxt. simpl orb. cbv iota.
  assert (Hlen : 0 < len txt) by (destruct txt; [discriminate | unfold len; simpl; lia]).
  rewrite chunk_loop_step by (simpl; lia).
  assert (Hend : window_end txt cs 0 = cs).
  { unfold window_end. destruct (Z.ltb_spec (0 + cs) (len txt)); lia. }
  assert (Hwin : window_text txt cs 0 = strip txt).
  { unfold window_text. rewrite Hend, slice_whole by assumption. reflexivity. }
  rewrite chunk_loop_done.
  - destruct (loop_body_cases txt cs ov init_state) as [(Hf & _) | (_ & -> & _)].
    + simpl in Hf. rewrite Hwin, Hne in Hf. discriminate.
    + simpl. now rewrite Hwin, Hend.
  - rewrite loop_body_start. simpl. unfold next_start. rewrite Hend.
    destruct (Z.ltb_spec cs (len txt)); lia.
Qed.

Lemma chunk_text_single_window_witness :
  chunk_text 1 "  hello world " 100 20
  = Some [ {| chunk_id := 1; text := "hello world";
              start_pos := 0; end_pos := 100;
              text_length := 11; word_count := 2 |} ].
Proof.
  apply (chunk_text_single_window "  hello world " 100 20 0);
    [reflexivity | vm_compute; discriminate].
Defined.

End ChunkerShape.

(** ** The chunker: overlap and coverage *)

Section ChunkerCoverage.

Import PyStr Chunker.

Lemma get_in s : forall p c,
  String.get p s = Some c -> In c (list_ascii_of_string s).
Proof.
  induction s as [|d s IH]; intros p c H; [discriminate|].
  destruct p; simpl in *; [inversion H; auto | eauto].
Qed.

Section Covering.

Variables (txt : string) (cs ov : Z).
Hypothesis Hcs : 0 < cs.
Hypothesis Hov0 : 0 <= ov.
Hypothesis Hhalf : 2 * ov <= cs.

#[local] Set Default Proof Using "Hcs Hov0 Hhalf".

Lemma loop_body_covering st :
  start st < len txt -> covering txt ov st ->
  covering txt ov (loop_body txt cs ov st).
Proof.
  intros Hlt (H0 & Hinc & Hbehind & Hsorted & Hcov).
  destruct (next_start_progress txt cs ov Hcs Hov0 Hhalf (start st))
    as (Hp & He & Hn); [lia|].
  destruct (body_strictly_increasing txt cs ov Hcs Hov0 Hhalf st)
    as [Hinc' Hbehind']; [lia | assumption | assumption |].
  assert (Hnext_le : next_start txt cs ov (start st)
                     <= window_end txt cs (start st)).
  { unfold next_start.
    destruct (Z.ltb_spec (window_end txt cs (start st)) (len txt)); lia. }
  unfold covering. rewrite loop_body_start.
  split; [lia|]. split; [assumption|]. split; [assumption|].
  destruct (loop_body_cases txt cs ov st) as [(Hf & E & _) | (Ht & E & _)];
    rewrite E; clear E.
  - split; [assumption|].
    intros p Hpos Hns.
    destruct (Z.lt_ge_cases p (start st)) as [Hold|Hnew];
      [apply Hcov; [lia | assumption]|].
    exfalso. destruct Hns as (c & Hget & Hc).
    assert (Hin : In c (list_ascii_of_string
                          (slice txt (start st) (window_end txt cs (start st)))))
      by (apply (get_in_slice txt _ _ p c); [lia | lia | assumption]).
    pose proof (strip_nonblank _ c Hin Hc) as Htr.
    unfold window_text in Hf. rewrite Htr in Hf. discriminate.
  - split.
    + apply sorted_snoc; [assumption|].
      eapply Forall_impl; [exact Hbehind|].
      intros y [_ Hy]. unfold overlap_at_most. simpl. apply Hy. assumption.
    + intros p Hpos Hns.
      destruct (Z.lt_ge_cases p (start st)) as [Hold|Hnew].
      * destruct (Hcov p ltac:(lia) Hns) as (c & Hc & Hrange).
        exists c. split; [apply in_or_app; auto | assumption].
      * eexists. split; [apply in_or_app; right; left; reflexivity|].
        simpl. lia.
Qed.

Lemma chunk_text_covering fuel :
  (String.length txt <= fuel)%nat ->
  exists cks,
    chunk_text fuel txt cs ov = Some cks /\
    StronglySorted (overlap_at_most ov) cks /\
    (forall p, 0 <= p -> nonspace_at txt p ->
       exists c, In c cks /\ start_pos c <= p < end_pos c).
Proof.
  intros Hfuel. unfold chunk_text.
  destruct (negb (truthy txt) || negb (truthy (strip txt))) eqn:Hblank.
  - exists []. split; [reflexivity|]. split; [constructor|].
    intros p _ (c & Hget & Hc). exfalso.
    assert (Hall : all_space txt).
    { apply strip_empty_all_space.
      destruct txt as [|d t]; [reflexivity|].
      simpl in Hblank. destruct (strip (String d t)); [reflexivity | discriminate]. }
    rewrite (Hall c (get_in _ _ _ Hget)) in Hc. discriminate.
  - destruct (chunk_loop_terminates txt cs ov Hcs Hov0 Hhalf fuel init_state)
      as [r Hr]; [simpl; lia | simpl; unfold len; lia |].
    exists r. split; [assumption|].
    destruct (chunk_loop_invariant txt cs ov (covering txt ov)
                loop_body_covering fuel init_state r)
      as (st & (_ & _ & _ & Hsorted & Hcov) & <- & Hend);
      [| assumption |].
    + unfold covering. simpl.
      split; [lia|]. split; [split; constructor|].
      split; [constructor|]. split; [constructor|].
      intros p Hp. lia.
    + split; [assumption|].
      intros p Hp Hns. apply Hcov; [|assumption].
      destruct Hns as (c & Hget & _). apply get_lt in Hget.
      unfold len in Hend. lia.
Qed.

End Covering.

(** X6: when the overlap is at most half the chunk size, the call returns
    and any two returned chunks, the earlier one first, share at most
    [overlap] characters: the earlier one ends no later than [overlap]
    after the start of the later one. *)
Theorem chunk_text_overlap_bounded txt cs ov fuel :
  0 < cs -> 0 <= ov -> 2 * ov <= cs ->
  (String.length txt <= fuel)%nat ->
  exists cks,
    chunk_text fuel txt cs ov = Some cks /\
    StronglySorted (overlap_at_most ov) cks.
Proof.
  intros Hcs Hov0 Hhalf Hfuel.
  destruct (chunk_text_covering txt cs ov Hcs Hov0 Hhalf fuel Hfuel)
    as (cks & Hrun & Hsorted & _).
  eauto.
Qed.

Lemma chunk_text_overlap_bounded_witness :
  exists cks,
    chunk_text 200 python_guide 100 20 = Some cks /\
    StronglySorted (overlap_at_most 20) cks.
Proof.
  apply (chunk_text_overlap_bounded python_guide 100 20 200);
    [lia | lia | lia | vm_compute; lia].
Defined.

(** X7: when the overlap is at most half the chunk size, no character
    other than whitespace is lost: each one lies in the window
    [start_pos, end_pos) of a returned chunk. *)
Theorem chunk_text_covers_text txt cs ov fuel :
  0 < cs -> 0 <= ov -> 2 * ov <= cs ->
  (String.length txt <= fuel)%nat ->
  exists cks,
    chunk_text fuel txt cs ov = Some cks /\
    forall p, 0 <= p -> nonspace_at txt p ->
      exists c, In c cks /\ start_pos c <= p < end_pos c.
Proof.
  intros Hcs Hov0 Hhalf Hfuel.
  destruct (chunk_text_covering txt cs ov Hcs Hov0 Hhalf fuel Hfuel)
    as (cks & Hrun & _ & Hcov).
  eauto.
Qed.

Lemma chunk_text_covers_text_witness :
  exists cks,
    chunk_text 200 python_guide 100 20 = Some cks /\
    forall p, 0 <= p -> nonspace_at python_guide p ->
      exists c, In c cks /\ start_pos c <= p < end_pos c.
Proof.
  apply (chunk_text_covers_text python_guide 100 20 200);
    [lia | lia | lia | vm_compute; lia].
Defined.

End ChunkerCoverage.

(** ** Chunking by fixed steps *)

Section IngestFacts.

Import PyStr Ingest.

Lemma py_range_in stop step i :
  0 < step -> In i (py_range stop step) ->
  0 <= i < stop /\ exists k, i = k * step.
Proof.
  intros Hstep Hin. unfold py_range in Hin.
  apply in_map_iff in Hin as (k & <- & Hk). apply in_seq in Hk.
  assert (Hlt : Z.of_nat k < (stop + step - 1) / step) by lia.
  split; [|eauto]. split; [nia|].
  assert (Z.of_nat k + 1 <= (stop + step - 1) / step) by lia.
  assert (step * ((stop + step - 1) / step) <= stop + step - 1)
    by (apply Z.mul_div_le; lia).
  nia.
Qed.

Lemma py_range_has stop step p :
  0 < step -> 0 <= p < stop -> In (p / step * step) (py_range stop step).
Proof.
  intros Hstep Hp. unfold py_range.
  apply in_map_iff. exists (Z.to_nat (p / step)).
  assert (0 <= p / step) by (apply Z.div_pos; lia).
  split; [now rewrite Z2Nat.id|].
  apply in_seq. split; [lia|]. simpl.
  apply Z2Nat.inj_lt; [assumption | |].
  - apply Z.div_pos; lia.
  - apply Z.div_lt_upper_bound; [lia|].
    assert (stop <= step * ((stop + step - 1) / step)).
    { pose proof (Z.mod_pos_bound (stop + step - 1) step Hstep).
      pose proof (Z.div_mod (stop + step - 1) step). lia. }
    assert (step * (p / step) <= p) by (apply Z.mul_div_le; lia).
    nia.
Qed.

Lemma py_range_length stop step :
  Z.of_nat (length (py_range stop step)) = Z.max 0 ((stop + step - 1) / step).
Proof. unfold py_range. rewrite length_map, length_seq. lia. Qed.

Section OneFile.

Variables (file content_text : string).

Lemma append_window_cases chunks i :
  (truthy (strip (slice content_text i (i + chunk_size))) = false /\
   append_window file content_text chunks i = chunks)
  \/
  (truthy (strip (slice content_text i (i + chunk_size))) = true /\
   append_window file content_text chunks i
   = (chunks ++
      [ {| content := strip (slice content_text i (i + chunk_size));
           filename := file;
           chunk_index := Z.of_nat (length chunks);
           source_file := file |} ])%list).
Proof. unfold append_window. destruct (truthy _); auto. Qed.

Lemma fold_keeps l : forall acc c,
  In c acc -> In c (fold_left (append_window file content_text) l acc).
Proof.
  induction l as [|i l IH]; intros acc c Hin; simpl; [assumption|].
  apply IH.
  destruct (append_window_cases acc i) as [[_ ->] | [_ ->]];
    [assumption | apply in_or_app; auto].
Qed.

Lemma fold_adds l : forall acc i,
  In i l -> truthy (strip (slice content_text i (i + chunk_size))) = true ->
  exists c, In c (fold_left (append_window file content_text) l acc) /\
            content c = strip (slice content_text i (i + chunk_size)).
Proof.
  induction l as [|j l IH]; intros acc i Hin Ht; simpl in *; [tauto|].
  destruct Hin as [->|Hin]; [|now apply IH].
  destruct (append_window_cases acc i) as [[Hf _] | [_ ->]]; [congruence|].
  eexists. split; [apply fold_keeps, in_or_app; right; left; reflexivity|].
  reflexivity.
Qed.

Lemma fold_indexed l : forall acc,
  map chunk_index acc = map Z.of_nat (seq 0 (length acc)) ->
  map chunk_index (fold_left (append_window file content_text) l acc)
  = map Z.of_nat
      (seq 0 (length (fold_left (append_window file content_text) l acc))).
Proof.
  induction l as [|i l IH]; intros acc Hacc; simpl; [assumption|].
  apply IH.
  destruct (append_window_cases acc i) as [[_ ->] | [_ ->]]; [assumption|].
  rewrite length_app, map_app, Hacc. simpl length.
  rewrite Nat.add_1_r, seq_S, map_app. reflexivity.
Qed.

Lemma fold_shape l : forall acc,
  (forall i, In i l -> 0 <= i) ->
  Forall (step_chunk_ok file) acc ->
  Forall (step_chunk_ok file)
         (fold_left (append_window file content_text) l acc).
Proof.
  induction l as [|i l IH]; intros acc Hpos Hacc; simpl; [assumption|].
  apply IH; [intros j Hj; apply Hpos; simpl; auto|].
  destruct (append_window_cases acc i) as [[_ ->] | [Ht ->]]; [assumption|].
  apply Forall_app. split; [assumption|]. repeat constructor; simpl.
  - intros E. rewrite E in Ht. discriminate.
  - apply strip_trimmed.
  - apply strip_trimmed.
  - etransitivity; [apply strip_len_le|].
    etransitivity; [apply slice_len_le|].
    pose proof (Hpos i ltac:(simpl; auto)). pose proof (len_nonneg content_text).
    unfold norm_index, chunk_size.
    destruct (Z.ltb_spec (i + 500) 0), (Z.ltb_spec i 0); lia.
Qed.

Lemma fold_length l : forall acc,
  (length (fold_left (append_window file content_text) l acc)
   <= length acc + length l)%nat.
Proof.
  induction l as [|i l IH]; intros acc; simpl; [lia|].
  etransitivity; [apply IH|].
  destruct (append_window_cases acc i) as [[_ ->] | [_ ->]];
    [lia | rewrite length_app; simpl; lia].
Qed.

End OneFile.

(** X8: the chunks built for a file are indexed 0, 1, 2, ... in order;
    each content is non-empty, neither begins nor ends with whitespace,
    has at most 500 characters, and carries the file name twice. *)
Theorem make_chunks_shape file content_text :
  map chunk_index (make_chunks file content_text)
  = map Z.of_nat (seq 0 (length (make_chunks file content_text))) /\
  Forall (step_chunk_ok file) (make_chunks file content_text).
Proof.
  unfold make_chunks. split.
  - now apply fold_indexed.
  - apply fold_shape; [|constructor].
    intros i Hi. apply py_range_in in Hi; [lia | unfold chunk_size, overlap; lia].
Qed.

(** X9: the windows step by 450 characters and are 500 wide, so no
    character other than whitespace is lost: each one lies in a window
    [i, i + 500) whose stripped text is the content of a chunk; and there
    are at most ceil(len / 450) chunks, none for a blank text. *)
Theorem make_chunks_covers_text file content_text :
  (forall p, 0 <= p -> nonspace_at content_text p ->
     exists c i, In c (make_chunks file content_text) /\
                 i <= p < i + chunk_size /\
                 content c = strip (slice content_text i (i + chunk_size))) /\
  Z.of_nat (length (make_chunks file content_text))
  <= (len content_text + 449) / 450 /\
  (all_space content_text -> make_chunks file content_text = []).
Proof.
  assert (Hstep : chunk_size - overlap = 450) by reflexivity.
  split; [|split].
  - intros p Hp (c & Hget & Hc).
    pose proof (get_lt _ _ _ Hget) as Hlt.
    assert (Hrange : 0 <= p < len content_text) by (unfold len; lia).
    pose proof (py_range_has (len content_text) 450 p ltac:(lia) Hrange) as Hin.
    set (i := p / 450 * 450) in *.
    assert (Hi : i <= p < i + 450).
    { subst i. pose proof (Z.mod_pos_bound p 450 ltac:(lia)).
      pose proof (Z.div_mod p 450 ltac:(lia)). lia. }
    assert (0 <= i).
    { subst i. assert (0 <= p / 450) by (apply Z.div_pos; lia). lia. }
    assert (Ht : truthy (strip (slice content_text i (i + chunk_size))) = true).
    { apply (strip_nonblank _ c); [|assumption].
      apply (get_in_slice content_text _ _ p c);
        [lia | unfold chunk_size; lia | assumption]. }
    unfold make_chunks. rewrite Hstep.
    destruct (fold_adds file content_text _ [] i Hin Ht) as (ck & Hck & Hcontent).
    exists ck, i. split; [assumption|]. split; [unfold chunk_size; lia | assumption].
  - unfold make_chunks. rewrite Hstep.
    pose proof (fold_length file content_text
                  (py_range (len content_text) 450) []) as Hle.
    pose proof (py_range_length (len content_text) 450) as Hlen.
    simpl in Hle, Hlen.
    assert (0 <= (len content_text + 449) / 450)
      by (apply Z.div_pos; pose proof (len_nonneg content_text); lia).
    replace (len content_text + 450 - 1) with (len content_text + 449) in Hlen by lia.
    lia.
  - intros Hall. unfold make_chunks.
    generalize (py_range (len content_text) (chunk_size - overlap)).
    intros l. induction l as [|i l IH]; [reflexivity|]. simpl.
    destruct (append_window_cases file content_text [] i) as [[_ ->] | [Ht _]];
      [assumption|].
    exfalso.
    assert (Hsp : all_space (slice content_text i (i + chunk_size))).
    { intros c Hc. apply Hall.
      unfold slice in Hc.
      revert Hc. generalize (Z.to_nat (norm_index (len content_text) i)).
      generalize (Z.to_nat (norm_index (len content_text) (i + chunk_size)
                            - norm_index (len content_text) i)).
      clear. induction content_text as [|d s IHs]; intros m n; destruct n, m;
        simpl; try tauto.
      - intros [<-|H]; [auto | right; eapply (IHs m 0%nat); exact H].
      - intros H. right. eapply (IHs 0%nat n). exact H.
      - intros H. right. eapply (IHs (S m) n). exact H. }
    rewrite (all_space_strip _ Hsp) in Ht. discriminate.
Qed.

Lemma make_chunks_covers_text_witness :
  all_space "   " /\ make_chunks "notes.txt" "   " = [].
Proof.
  assert (H : all_space "   ").
  { intros c Hin. simpl in Hin.
    repeat (destruct Hin as [<-|Hin]; [reflexivity|]). destruct Hin. }
  split; [exact H|].
  exact (proj2 (proj2 (make_chunks_covers_text "notes.txt" "   ")) H).
Defined.

End IngestFacts.

(** ** The vector index: what adding and clearing do to the store *)

Section StoreFacts.

Import PyStr VectorService.

Lemma put_new_same (c : gmap string entry) r id e :
  c !! id = Some e -> put_new c r !! id = Some e.
Proof.
  intros H. unfold put_new. destruct (c !! r.1) eqn:E; [assumption|].
  rewrite lookup_insert_ne; [assumption|]. intros Heq. congruence.
Qed.

Lemma foldl_put_new_same records : forall (c : gmap string entry) id e,
  c !! id = Some e -> foldl put_new c records !! id = Some e.
Proof.
  induction records as [|r records IH]; intros c id e H; simpl; [assumption|].
  apply IH. now apply put_new_same.
Qed.

(** What a call that does not raise leaves in the store. *)
Lemma collection_add_result cl c docs embs mds ids c' :
  collection_add cl c docs embs mds ids = Some c' ->
  NoDup ids /\
  c' = foldl put_new c
         (zip ids (zip_with (fun de m => mk_entry de.1 de.2 m)
                            (zip docs embs) mds)).
Proof.
  unfold collection_add.
  case_bool_decide; [discriminate|].
  case_bool_decide; [discriminate|].
  case_bool_decide as Hnd; simpl; [|discriminate].
  destruct (on_existing_id cl).
  - case_bool_decide; [discriminate|]. now intros [= <-].
  - now intros [= <-].
Qed.

(** A batch with an empty metadata dictionary is refused, and so is one
    with a document that has none. *)
Lemma add_documents_metadata vs documents doc :
  (add_documents vs documents).1 = true ->
  In doc documents ->
  exists md, doc_metadata doc = Some md /\ md <> ∅.
Proof.
  unfold add_documents, collection_add.
  case_bool_decide; [discriminate|].
  case_bool_decide as Hmd; [discriminate|].
  intros _ Hin.
  assert (Hne : default ∅ (doc_metadata doc) <> ∅).
  { intros Hempty. apply Hmd. apply Exists_exists.
    exists (default ∅ (doc_metadata doc)). split; [|assumption].
    unfold metadatas_of. apply list_elem_of_In.
    apply (in_map (fun d => default ∅ (doc_metadata d))). assumption. }
  destruct (doc_metadata doc) as [md|]; [|now destruct Hne].
  now exists md.
Qed.

Lemma add_documents_result vs documents :
  (add_documents vs documents).1 = true ->
  NoDup (ids_of documents) /\
  collection (add_documents vs documents).2
  = foldl put_new (collection vs)
      (zip (ids_of documents)
           (zip_with (fun de m => mk_entry de.1 de.2 m)
              (zip (texts_of documents)
                   (map (embedding_model vs) (texts_of documents)))
              (metadatas_of documents))).
Proof.
  unfold add_documents.
  destruct (collection_add _ _ _ _ _ _) as [c'|] eqn:E; simpl; [|discriminate].
  intros _. now apply collection_add_result in E.
Qed.

Lemma add_documents_unchanged vs documents :
  (add_documents vs documents).1 = false ->
  (add_documents vs documents).2 = vs.
Proof.
  unfold add_documents.
  destruct (collection_add _ _ _ _ _ _); simpl; [discriminate | reflexivity].
Qed.

(** X10: [add_documents] never changes or removes a record that is already
    stored, whether it returns True or False and whatever the store does
    with an id it already holds. *)
Theorem add_documents_keeps_records vs documents id e :
  collection vs !! id = Some e ->
  collection (add_documents vs documents).2 !! id = Some e.
Proof.
  intros H. destruct (add_documents vs documents).1 eqn:Hok.
  - destruct (add_documents_result vs documents Hok) as [_ ->].
    now apply foldl_put_new_same.
  - now rewrite add_documents_unchanged.
Qed.

Lemma add_documents_keeps_records_witness :
  collection
    (add_documents opposed_service [doc_of "alpha"]).2 !! "k"
  = Some opposite_entry.
Proof.
  apply (add_documents_keeps_records opposed_service [doc_of "alpha"]).
  apply lookup_singleton_eq.
Defined.

Lemma filter_ext_in {A} (P Q : A -> Prop)
    `{forall x, Decision (P x)} `{forall x, Decision (Q x)} (l : list A) :
  (forall x, In x l -> (P x <-> Q x)) -> filter P l = filter Q l.
Proof.
  induction l as [|x l IH]; intros Hext; [reflexivity|].
  rewrite !filter_cons.
  assert (Hrest : filter P l = filter Q l)
    by (apply IH; intros y Hy; apply Hext; simpl; auto).
  pose proof (Hext x ltac:(simpl; auto)) as Hx.
  destruct (decide (P x)), (decide (Q x)); rewrite Hrest; tauto.
Qed.

Lemma filter_all {A} (P : A -> Prop) `{forall x, Decision (P x)}
    (l : list A) :
  (forall x, In x l -> P x) -> filter P l = l.
Proof.
  induction l as [|x l IH]; intros Hall; [reflexivity|].
  rewrite filter_cons. destruct (decide (P x)) as [_|Hx].
  - f_equal. apply IH. intros y Hy. apply Hall. simpl. auto.
  - exfalso. apply Hx, Hall. simpl. auto.
Qed.

(** The store grows by the ids it did not hold. *)
Lemma foldl_put_new_size (records : list (string * entry)) :
  forall c : gmap string entry,
  NoDup (map fst records) ->
  size (foldl put_new c records)
  = (size c + length (filter (fun id => c !! id = None) (map fst records)))%nat.
Proof.
  induction records as [|r records IH]; intros c Hnd; simpl; [lia|].
  inversion Hnd as [|? ? Hnotin Hnd']; subst.
  rewrite IH by assumption. rewrite filter_cons.
  unfold put_new. destruct (c !! r.1) eqn:E.
  - destruct (decide (Some e = None)); [discriminate | reflexivity].
  - destruct (decide (None = None)) as [_|]; [|congruence].
    rewrite map_size_insert_None by assumption. simpl.
    rewrite (filter_ext_in
               (fun id => <[r.1:=r.2]> c !! id = None)
               (fun id => c !! id = None) (map fst records)); [lia|].
    intros id Hid.
    assert (r.1 <> id)
      by (intros Heq; apply Hnotin; rewrite Heq; now apply list_elem_of_In).
    now rewrite lookup_insert_ne.
Qed.

(** The record of position [i] is the one stored under its id when the
    id is new. *)
Lemma foldl_put_new_lookup (records : list (string * entry)) :
  forall (c : gmap string entry) i id e,
  NoDup (map fst records) ->
  records !! i = Some (id, e) -> c !! id = None ->
  foldl put_new c records !! id = Some e.
Proof.
  induction records as [|r records IH]; intros c i id e Hnd Hi Hnew;
    [discriminate|].
  inversion Hnd as [|? ? Hnotin Hnd']; subst. simpl.
  destruct i as [|i]; simpl in Hi.
  - inversion Hi; subst. apply foldl_put_new_same.
    unfold put_new. simpl. rewrite Hnew. apply lookup_insert_eq.
  - apply (IH _ i); [assumption | assumption|].
    assert (r.1 <> id).
    { intros E. apply Hnotin. rewrite E. apply list_elem_of_In.
      apply in_map_iff. exists (id, e). split; [reflexivity|].
      apply list_elem_of_In. eapply list_elem_of_lookup_2. exact Hi. }
    unfold put_new. destruct (c !! r.1); [assumption|].
    now rewrite lookup_insert_ne.
Qed.

(** X11: when [add_documents] returns True, [total_chunks] has grown by the
    number of ids of the batch that were not stored before; in
    particular it never shrinks. *)
Theorem add_documents_grows_by_new_ids vs documents :
  (add_documents vs documents).1 = true ->
  total_chunks (get_stats (add_documents vs documents).2)
  = total_chunks (get_stats vs)
    + Z.of_nat (length (filter (fun id => collection vs !! id = None)
                               (ids_of documents))).
Proof.
  intros Hok. destruct (add_documents_result vs documents Hok) as [Hnd Hc].
  unfold get_stats. simpl. rewrite Hc.
  rewrite foldl_put_new_size;
    rewrite records_keys by apply batch_lengths; [lia | assumption].
Qed.

Lemma add_documents_grows_by_new_ids_witness :
  total_chunks (get_stats
    (add_documents empty_service [chunk_of "alpha"; chunk_of "beta"]).2)
  = total_chunks (get_stats empty_service)
    + Z.of_nat (length (filter (fun id => collection empty_service !! id = None)
                               (ids_of [chunk_of "alpha"; chunk_of "beta"]))).
Proof.
  apply (add_documents_grows_by_new_ids empty_service
           [chunk_of "alpha"; chunk_of "beta"]).
  vm_compute. reflexivity.
Defined.

(** X12: when [add_documents] returns True, every document of the
    batch carries a metadata dictionary that is not empty (the store
    refuses the others), and the document at position [i], if its id was
    not stored before, is stored under that id with its content (an
    absent content is the empty string), the embedding of its content
    and its metadata. *)
Theorem add_documents_stores_new vs documents i doc :
  (add_documents vs documents).1 = true ->
  documents !! i = Some doc ->
  collection vs !! doc_id (default "" (doc_content doc)) i = None ->
  exists md,
    doc_metadata doc = Some md /\ md <> ∅ /\
    collection (add_documents vs documents).2
      !! doc_id (default "" (doc_content doc)) i
    = Some {| e_document := default "" (doc_content doc);
              e_embedding := embedding_model vs (default "" (doc_content doc));
              e_metadata := md |}.
Proof.
  intros Hok Hdoc Hnew.
  destruct (add_documents_metadata vs documents doc Hok) as (md & Hmd & Hne).
  { apply list_elem_of_In. eapply list_elem_of_lookup_2. exact Hdoc. }
  exists md. split; [assumption|]. split; [assumption|].
  destruct (add_documents_result vs documents Hok) as [Hnd ->].
  apply (foldl_put_new_lookup _ _ i);
    [now rewrite records_keys by apply batch_lengths | | assumption].
  unfold ids_of, texts_of, metadatas_of.
  rewrite lookup_zip_with, list_lookup_imap, Hdoc. simpl.
  rewrite lookup_zip_with, lookup_zip_with, !list_lookup_fmap, Hdoc.
  simpl. now rewrite Hmd.
Qed.

Lemma add_documents_stores_new_witness :
  exists md,
    doc_metadata untitled_chunk = Some md /\ md <> ∅ /\
    collection
      (add_documents empty_service [chunk_of "alpha"; untitled_chunk]).2
      !! doc_id "" 1
    = Some {| e_document := ""; e_embedding := [1%R]; e_metadata := md |}.
Proof.
  apply (add_documents_stores_new empty_service
           [chunk_of "alpha"; untitled_chunk] 1 untitled_chunk);
    [vm_compute; reflexivity | reflexivity | apply lookup_empty].
Defined.

(** X13: after [clear_all] the index is empty and usable: [total_chunks] is
    0, every search returns [], and a batch that [add_documents] then
    accepts leaves exactly as many records as it has documents. *)
Theorem clear_all_resets vs documents query max_docs :
  total_chunks (get_stats (clear_all vs).2) = 0 /\
  search_similar (clear_all vs).2 query max_docs = [] /\
  ((add_documents (clear_all vs).2 documents).1 = true ->
   total_chunks (get_stats (add_documents (clear_all vs).2 documents).2)
   = Z.of_nat (length documents)).
Proof.
  split; [reflexivity|].
  split; [now apply search_similar_empty|].
  intros Hok. destruct (add_documents_result _ documents Hok) as [Hnd Hc].
  unfold get_stats. cbn [total_chunks]. rewrite Hc.
  rewrite foldl_put_new_size;
    rewrite records_keys by apply batch_lengths; [|assumption].
  cbn [clear_all snd collection]. rewrite map_size_empty.
  rewrite filter_all by (intros id _; apply lookup_empty).
  unfold ids_of. rewrite length_imap. lia.
Qed.

Lemma clear_all_resets_witness :
  total_chunks (get_stats
    (add_documents (clear_all opposed_service).2
       [chunk_of "alpha"; chunk_of "beta"]).2) = 2.
Proof.
  apply (proj2 (proj2
          (clear_all_resets opposed_service [chunk_of "alpha"; chunk_of "beta"]
             "query" 5))).
  vm_compute. reflexivity.
Defined.

End StoreFacts.

(** ** Generation with fallback: sources, flags and the history window *)

Section GenerationFacts.

Import PyStr VectorService LLM.

Lemma concat_truthy sep x xs :
  truthy x = true -> truthy (String.concat sep (x :: xs)) = true.
Proof. destruct x; [discriminate|]. intros _. destruct xs; reflexivity. Qed.

(** The context text is empty exactly when there are no results. *)
Lemma rag_context_truthy results :
  truthy (rag_context_of results) = nonempty results.
Proof.
  destruct results as [|r results]; [reflexivity|].
  unfold rag_context_of. apply concat_truthy. reflexivity.
Qed.

Lemma retrieve_sources svc query use_rag max_docs :
  (retrieve svc query use_rag max_docs).1
  = match use_rag, vector_service svc with
    | true, Some vs => search_similar vs query max_docs
    | _, _ => []
    end.
Proof.
  unfold retrieve. destruct use_rag; [|reflexivity].
  destruct (vector_service svc) as [vs|]; [|reflexivity].
  destruct (search_similar vs query max_docs); reflexivity.
Qed.

Lemma process_query_sources_retrieved svc query context use_rag max_docs :
  sources (process_query svc query context use_rag max_docs)
  = (retrieve svc query use_rag max_docs).1.
Proof.
  unfold process_query.
  destruct (retrieve svc query use_rag max_docs) as [srcs rag].
  destruct (groq_client svc) as [call|]; [|reflexivity].
  destruct (call _); reflexivity.
Qed.

Lemma process_query_flag svc query context use_rag max_docs :
  LLM.use_rag (process_query svc query context use_rag max_docs)
  = nonempty (sources (process_query svc query context use_rag max_docs)).
Proof.
  unfold process_query.
  pose proof (retrieve_context svc query use_rag max_docs) as Hctx.
  destruct (retrieve svc query use_rag max_docs) as [srcs rag].
  simpl in Hctx. subst rag.
  destruct (groq_client svc) as [call|]; [|reflexivity].
  destruct (call _); [|reflexivity].
  cbn [LLM.use_rag sources]. apply rag_context_truthy.
Qed.

(** X14: the sources [process_query] returns are the results of
    [search_similar] for the query when retrieval is requested and a
    vector service is connected, and [] otherwise, whatever the backend
    and the history are; the [use_rag] entry of the result is True exactly
    when the sources are not empty, on the backend path as on the
    fallback paths. *)
Theorem process_query_sources svc query context use_rag max_docs :
  sources (process_query svc query context use_rag max_docs)
  = match use_rag, vector_service svc with
    | true, Some vs => search_similar vs query max_docs
    | _, _ => []
    end /\
  LLM.use_rag (process_query svc query context use_rag max_docs)
  = nonempty (sources (process_query svc query context use_rag max_docs)).
Proof.
  split.
  - rewrite process_query_sources_retrieved. apply retrieve_sources.
  - apply process_query_flag.
Qed.

Lemma last_n_app {A} n (older l : list A) :
  (n <= length l)%nat -> last_n n (older ++ l) = last_n n l.
Proof.
  intros Hn. unfold last_n. rewrite length_app.
  replace (length older + length l - n)%nat
    with (length older + (length l - n))%nat by lia.
  apply drop_app_add.
Qed.

(** X15: only the last six turns of the history reach the backend: turns
    before them change nothing in the result. *)
Theorem process_query_recent_history svc query older ctx use_rag max_docs :
  (6 <= length ctx)%nat ->
  process_query svc query (Some (older ++ ctx)%list) use_rag max_docs
  = process_query svc query (Some ctx) use_rag max_docs.
Proof.
  intros Hlen. unfold process_query, build_messages, history_messages.
  now rewrite last_n_app.
Qed.

Lemma process_query_recent_history_witness :
  process_query recounting_service "nine"
    (Some ([mk_turn None (Some "zero")] ++ eight_turns)%list) true 5
  = process_query recounting_service "nine" (Some eight_turns) true 5.
Proof.
  apply (process_query_recent_history recounting_service "nine"
           [mk_turn None (Some "zero")] eight_turns true 5).
  simpl. lia.
Defined.

Lemma contains_right sub pre s :
  contains sub s = true -> contains sub (pre +:+ s) = true.
Proof.
  intros H. induction pre as [|c pre IH]; [exact H|].
  change (String.prefix sub (String c (pre +:+ s)) || contains sub (pre +:+ s)
          = true).
  rewrite IH. apply orb_true_r.
Qed.

Lemma append_assoc s t u : (s +:+ t) +:+ u = s +:+ t +:+ u.
Proof.
  induction s as [|c s IH]; [reflexivity|].
  change (String c ((s +:+ t) +:+ u) = String c (s +:+ t +:+ u)).
  now rewrite IH.
Qed.

Lemma prefix_upto p rest s : s = p +:+ rest -> String.prefix p s = true.
Proof. intros ->. apply prefix_app. Qed.

(** X16: when there is no backend, or the backend call raises, the answer
    is the fallback one: the model is "fallback", the answer quotes the
    query, and it opens with "Found <n> relevant documents for: <query>"
    when [n > 0] sources were retrieved and with "Processing: <query>"
    when none were. *)
Theorem process_query_fallback svc query context use_rag max_docs :
  (forall call msgs, groq_client svc = Some call -> call msgs = None) ->
  let result := process_query svc query context use_rag max_docs in
  model result = "fallback" /\
  contains query (answer result) = true /\
  startswith (answer result)
    (if nonempty (sources result)
     then "Found " +:+ of_int (Z.of_nat (length (sources result)))
          +:+ " relevant documents for: " +:+ query
     else "Processing: " +:+ query) = true.
Proof.
  intros Hraise result.
  assert (Hres : result
                 = fallback_response query
                     (retrieve svc query use_rag max_docs).1).
  { unfold result, process_query.
    destruct (retrieve svc query use_rag max_docs) as [srcs rag].
    destruct (groq_client svc) as [call|] eqn:E; [|reflexivity].
    now rewrite (Hraise call _ eq_refl). }
  rewrite Hres. clear Hres result.
  generalize (retrieve svc query use_rag max_docs).1. intros srcs.
  unfold fallback_response, startswith. cbn [model answer sources].
  split; [reflexivity|].
  destruct (nonempty srcs).
  - split.
    + do 2 apply contains_right. apply contains_app.
    + eapply prefix_upto. rewrite !append_assoc. reflexivity.
  - split; [apply contains_app|].
    eapply prefix_upto. rewrite !append_assoc. reflexivity.
Qed.

Lemma process_query_fallback_witness :
  model (process_query offline_service "What is RAG?" None true 5)
  = "fallback" /\
  contains "What is RAG?"
    (answer (process_query offline_service "What is RAG?" None true 5))
  = true /\
  startswith
    (answer (process_query offline_service "What is RAG?" None true 5))
    "Processing: What is RAG?" = true.
Proof.
  apply (process_query_fallback offline_service "What is RAG?" None true 5).
  intros call msgs H. discriminate H.
Defined.

End GenerationFacts.

(** ** The query endpoint: outcomes, flags and the history window *)

Section EndpointFacts.

Import PyStr VectorService Frontend.

Lemma strip_truthy_not_all_space s : truthy (strip s) = true -> ~ all_space s.
Proof. intros H Hall. rewrite (all_space_strip s Hall) in H. discriminate. Qed.

(** X17: for a request of the type above (a string for the question, a
    list of role/content dictionaries for the history) and a backend
    whose replies are strings, the endpoint has two outcomes.  A question
    made of whitespace only (or empty) is answered by the HTTP error 500
    "Query processing error: Question cannot be empty", with or without
    the LLM service; every other question is answered by a response whose
    [success] is True and whose [context_used] is the length of the
    history sent. *)
Theorem query_for_frontend_outcomes llm_service req :
  (all_space (question req) /\
   query_for_frontend llm_service req
   = HTTPException 500 "Query processing error: Question cannot be empty")
  \/
  (~ all_space (question req) /\
   exists resp,
     query_for_frontend llm_service req = Ok resp /\
     success resp = true /\
     context_used resp = Z.of_nat (length (context req))).
Proof.
  unfold query_for_frontend.
  destruct (truthy (strip (question req))) eqn:E; simpl negb; cbv iota.
  - right. split; [now apply strip_truthy_not_all_space|].
    destruct llm_service as [svc|]; eexists; (split; [reflexivity|]);
      (split; [|reflexivity]); [|reflexivity].
    cbn [success]. unfold LLM.process_query.
    destruct (LLM.retrieve _ _ _ _) as [srcs rag].
    destruct (LLM.groq_client svc) as [call|]; [|reflexivity].
    destruct (call _); reflexivity.
  - left. split; [|reflexivity].
    apply strip_empty_all_space.
    destruct (strip (question req)); [reflexivity | discriminate].
Qed.

Lemma nonempty_map {A B} (f : A -> B) (l : list A) :
  nonempty (map f l) = nonempty l.
Proof. now destruct l. Qed.

(** X18: with the LLM service, the sources of the response are the
    results of [search_similar] for the question as enhanced with the
    history text (not for the question alone), or [] without a vector
    service, and [rag_enabled] is True exactly when the response has
    sources. *)
Theorem query_for_frontend_sources svc req resp :
  query_for_frontend (Some svc) req = Ok resp ->
  sources resp
  = map Retrieved
      match LLM.vector_service svc with
      | Some vs =>
          search_similar vs
            (enhanced_question_of (context_text_of (context req))
               (question req))
            (max_results req)
      | None => []
      end /\
  rag_enabled resp = Some (nonempty (sources resp)).
Proof.
  unfold query_for_frontend.
  destruct (truthy (strip (question req))); simpl negb; cbv iota;
    [|discriminate].
  intros [= <-]. cbn [sources rag_enabled]. split.
  - now rewrite process_query_sources_retrieved, retrieve_sources.
  - now rewrite nonempty_map, process_query_flag.
Qed.

Lemma query_for_frontend_sources_witness :
  exists resp,
    query_for_frontend (Some plain_service) follow_up = Ok resp /\
    sources resp = [] /\
    rag_enabled resp = Some (nonempty (sources resp)).
Proof.
  eexists. split; [vm_compute; reflexivity|].
  apply (query_for_frontend_sources plain_service follow_up).
  vm_compute. reflexivity.
Defined.

(** X19: with an empty history the question reaches [process_query] as it
    is and the generated answer is returned as it is. *)
Theorem query_for_frontend_no_history svc req resp :
  context req = [] ->
  query_for_frontend (Some svc) req = Ok resp ->
  answer resp
  = LLM.answer
      (LLM.process_query svc (question req) None true (max_results req)) /\
  context_used resp = 0.
Proof.
  intros Hctx. unfold query_for_frontend.
  destruct (truthy (strip (question req))); simpl negb; cbv iota;
    [|discriminate].
  intros [= <-]. cbn [answer context_used]. rewrite Hctx. split; reflexivity.
Qed.

Lemma query_for_frontend_no_history_witness :
  exists resp,
    query_for_frontend (Some plain_service)
      (mk_request "explain more" 5 [] "default") = Ok resp /\
    answer resp = "Chunks are text windows." /\
    context_used resp = 0.
Proof.
  eexists. split; [vm_compute; reflexivity|].
  apply (query_for_frontend_no_history plain_service
           (mk_request "explain more" 5 [] "default"));
    [reflexivity | vm_compute; reflexivity].
Defined.

Lemma nonempty_long {A} n (l : list A) :
  (S n <= length l)%nat -> nonempty l = true.
Proof. destruct l; simpl; [lia | reflexivity]. Qed.

(** X20: only the last six turns of the history count: with the LLM
    service, turns put before them change nothing in the outcome but
    [context_used], which counts every turn sent. *)
Theorem query_for_frontend_recent_history svc q n older ctx sid :
  (6 <= length ctx)%nat ->
  match query_for_frontend (Some svc) (mk_request q n (older ++ ctx) sid),
        query_for_frontend (Some svc) (mk_request q n ctx sid) with
  | Ok r, Ok r' =>
      r = {| answer := answer r';
             sources := sources r';
             confidence := confidence r';
             success := success r';
             model := model r';
             sources_found := sources_found r';
             processing_time := processing_time r';
             rag_enabled := rag_enabled r';
             context_used := Z.of_nat (length older) + context_used r';
             reply_session_id := reply_session_id r';
             context_aware := context_aware r' |}
  | HTTPException c d, HTTPException c' d' => c = c' /\ d = d'
  | _, _ => False
  end.
Proof.
  intros Hlen. unfold query_for_frontend.
  cbn [question context max_results session_id].
  destruct (truthy (strip q)); simpl negb; cbv iota; [|split; reflexivity].
  cbn [answer sources confidence model success sources_found processing_time
       rag_enabled context_used reply_session_id context_aware].
  unfold context_text_of, acknowledge.
  rewrite last_n_app by assumption.
  rewrite (nonempty_long 5 ctx) by assumption.
  rewrite (nonempty_long 5 (older ++ ctx)) by (rewrite length_app; lia).
  f_equal. rewrite length_app. lia.
Qed.

Lemma query_for_frontend_recent_history_witness :
  match query_for_frontend (Some listing_service)
          (mk_request "nine" 5
             ([LLM.mk_turn None (Some "zero")] ++ gapped_turns) "default"),
        query_for_frontend (Some listing_service)
          (mk_request "nine" 5 gapped_turns "default") with
  | Ok r, Ok r' =>
      r = {| answer := answer r';
             sources := sources r';
             confidence := confidence r';
             success := success r';
             model := model r';
             sources_found := sources_found r';
             processing_time := processing_time r';
             rag_enabled := rag_enabled r';
             context_used := 1 + context_used r';
             reply_session_id := reply_session_id r';
             context_aware := context_aware r' |}
  | HTTPException c d, HTTPException c' d' => c = c' /\ d = d'
  | _, _ => False
  end.
Proof.
  apply (query_for_frontend_recent_history listing_service "nine" 5
           [LLM.mk_turn None (Some "zero")] gapped_turns "default").
  simpl. lia.
Defined.

Lemma lower_app s t : lower (s +:+ t) = lower s +:+ lower t.
Proof.
  induction s as [|c s IH]; [reflexivity|].
  change (String (lower_char c) (lower (s +:+ t))
          = String (lower_char c) (lower s +:+ lower t)).
  now rewrite IH.
Qed.

Lemma prefix_left sub : forall s t,
  String.prefix sub s = true -> String.prefix sub (s +:+ t) = true.
Proof.
  induction sub as [|a sub IH]; intros s t H;
    [now destruct (s +:+ t)|].
  destruct s as [|c s]; [discriminate|].
  change (String.prefix (String a sub) (String c (s +:+ t)) = true).
  simpl in *. destruct (ascii_dec a c); [now apply IH | discriminate].
Qed.

Lemma contains_left sub s t :
  sub <> "" -> contains sub s = true -> contains sub (s +:+ t) = true.
Proof.
  intros Hsub. induction s as [|c s IH]; intros H.
  - destruct sub; [congruence | discriminate].
  - change (String.prefix sub (String c s) || contains sub s = true) in H.
    change (String.prefix sub (String c (s +:+ t)) || contains sub (s +:+ t)
            = true).
    apply orb_prop in H as [H|H].
    + change (String c (s +:+ t)) with (String c s +:+ t).
      now rewrite prefix_left.
    + rewrite IH by assumption. apply orb_true_r.
Qed.

(** The question as enhanced with a history text mentions the
    "previous conversation". *)
Lemma enhanced_question_previous context_text q :
  truthy context_text = true ->
  contains "previous" (lower (enhanced_question_of context_text q)) = true.
Proof.
  intros H. unfold enhanced_question_of. rewrite H.
  change (contains "previous"
            (lower ("Based on our " +:+ "previous" +:+
                    (" conversation:" +:+ nl +:+ context_text +:+ nl +:+ nl
                     +:+ "Current question: " +:+ q +:+ nl +:+ nl
                     +:+ "Please answer the current question considering the context of our conversation.")))
          = true).
  rewrite !lower_app. apply contains_app.
Qed.

Lemma fallback_answer_mentions query srcs sub :
  sub <> "" ->
  contains sub (lower query) = true ->
  contains sub (lower (LLM.answer (LLM.fallback_response query srcs))) = true.
Proof.
  intros Hsub H. unfold LLM.fallback_response. cbn [LLM.answer].
  destruct (nonempty srcs); rewrite !lower_app.
  - do 3 apply contains_right. now apply contains_left.
  - apply contains_right. now apply contains_left.
Qed.

Lemma truthy_app_r s t : truthy t = true -> truthy (s +:+ t) = true.
Proof. intros H. destruct s; [exact H | reflexivity]. Qed.

Lemma concat_truthy_in (l : list string) x :
  In x l -> truthy x = true -> truthy (String.concat "" l) = true.
Proof.
  induction l as [|y l IH]; intros Hin Hx; [destruct Hin|].
  destruct Hin as [->|Hin].
  - now apply concat_truthy.
  - destruct l as [|z l]; [destruct Hin|].
    change (truthy (y +:+ "" +:+ String.concat "" (z :: l)) = true).
    do 2 apply truthy_app_r. now apply IH.
Qed.

(** The history text is not empty when one of the last six turns has
    content. *)
Lemma context_text_truthy ctx t :
  In t (LLM.last_n 6 ctx) -> has_content t ->
  truthy (context_text_of ctx) = true.
Proof.
  intros Hin Ht. unfold context_text_of.
  apply (concat_truthy_in _
           (default "user" (LLM.turn_role t) +:+ ": "
            +:+ default "" (LLM.turn_content t) +:+ nl)).
  - apply list_elem_of_In, list_elem_of_omap. exists t.
    split; [now apply list_elem_of_In|].
    unfold has_content in Ht. now rewrite Ht.
  - do 2 apply truthy_app_r. clear -Ht. unfold has_content in Ht.
    destruct (default "" (LLM.turn_content t)); [discriminate | reflexivity].
Qed.

(** X21: when the generation backend is absent or raises and one of the
    last six turns of the history has content, the answer is never
    prefixed with "Based on our conversation, ", whatever the question:
    the fallback answer quotes the enhanced question, which holds the
    word "previous". *)
Theorem fallback_answer_not_acknowledged svc req resp t :
  (forall call msgs, LLM.groq_client svc = Some call -> call msgs = None) ->
  In t (LLM.last_n 6 (context req)) -> has_content t ->
  query_for_frontend (Some svc) req = Ok resp ->
  answer resp
  = LLM.answer
      (LLM.process_query svc
         (enhanced_question_of (context_text_of (context req)) (question req))
         None true (max_results req)) /\
  startswith (answer resp) "Based on our conversation, " = false.
Proof.
  intros Hraise Hin Ht.
  pose proof (context_text_truthy _ _ Hin Ht) as Htext.
  unfold query_for_frontend.
  destruct (truthy (strip (question req))); simpl negb; cbv iota;
    [|discriminate].
  intros [= <-]. cbn [answer].
  set (eq := enhanced_question_of _ _).
  assert (Hres : LLM.process_query svc eq None true (max_results req)
                 = LLM.fallback_response eq
                     (LLM.retrieve svc eq true (max_results req)).1).
  { unfold LLM.process_query.
    destruct (LLM.retrieve svc eq true (max_results req)) as [srcs rag].
    destruct (LLM.groq_client svc) as [call|] eqn:E; [|reflexivity].
    now rewrite (Hraise call _ eq_refl). }
  rewrite Hres.
  assert (Hack : acknowledge (context req) (question req)
                   (LLM.answer (LLM.fallback_response eq
                      (LLM.retrieve svc eq true (max_results req)).1))
                 = LLM.answer (LLM.fallback_response eq
                      (LLM.retrieve svc eq true (max_results req)).1)).
  { unfold acknowledge.
    rewrite (fallback_answer_mentions eq _ "previous")
      by (discriminate || now apply enhanced_question_previous).
    now rewrite andb_false_r. }
  rewrite Hack. split; [reflexivity|].
  unfold LLM.fallback_response, startswith. cbn [LLM.answer].
  destruct (nonempty _); reflexivity.
Qed.

Lemma fallback_answer_not_acknowledged_witness :
  exists resp,
    query_for_frontend (Some offline_service) follow_up = Ok resp /\
    answer resp
    = LLM.answer
        (LLM.process_query offline_service
           (enhanced_question_of (context_text_of (context follow_up))
              (question follow_up))
           None true (max_results follow_up)) /\
    startswith (answer resp) "Based on our conversation, " = false.
Proof.
  eexists. split; [vm_compute; reflexivity|].
  apply (fallback_answer_not_acknowledged offline_service follow_up _
           (LLM.mk_turn (Some "user") (Some "What is a chunk?"))).
  - intros call msgs H. discriminate H.
  - simpl. auto.
  - reflexivity.
  - vm_compute. reflexivity.
Defined.

End EndpointFacts.

(** ** The vector index: ids, and searching what was added *)

Section IndexRoundTrip.

Import PyStr VectorService.

Lemma hex_length bs : String.length (MD5.hex bs) = (2 * length bs)%nat.
Proof. induction bs as [|b bs IH]; simpl; [reflexivity | rewrite IH; lia]. Qed.

Lemma le_bytes_length count x : length (MD5.le_bytes count x) = count.
Proof. unfold MD5.le_bytes. now rewrite length_map, length_seq. Qed.

Lemma digest_length msg : length (MD5.digest msg) = 16%nat.
Proof.
  unfold MD5.digest. destruct (MD5.blocks _ _ _) as [[[a b] c] d].
  now rewrite !length_app, !le_bytes_length.
Qed.

Lemma hex_digit_in x :
  In (MD5.hex_digit x) (list_ascii_of_string "0123456789abcdef").
Proof.
  unfold MD5.hex_digit.
  destruct (Nat.lt_ge_cases (Z.to_nat x) 16) as [Hlt|Hge].
  - apply nth_In. exact Hlt.
  - rewrite nth_overflow by exact Hge. simpl. auto.
Qed.

Lemma hex_digits bs : hex_string (MD5.hex bs).
Proof.
  induction bs as [|b bs IH]; intros c; simpl; [tauto|].
  intros [<-|[<-|H]]; [apply hex_digit_in | apply hex_digit_in | now apply IH].
Qed.

(** X22: [add_documents] gives every document of a batch one id, and each
    id is a string of 32 lower-case hexadecimal digits, whatever the
    content of the document. *)
Theorem add_documents_id_format documents :
  length (ids_of documents) = length documents /\
  forall id, In id (ids_of documents) ->
    String.length id = 32%nat /\ hex_string id.
Proof.
  split; [apply length_imap|].
  intros id Hin. apply list_elem_of_In, list_elem_of_lookup in Hin as [i Hi].
  unfold ids_of in Hi. rewrite list_lookup_imap in Hi.
  destruct (documents !! i) as [doc|]; [|discriminate].
  injection Hi as <-. unfold doc_id, MD5.hexdigest. split.
  - now rewrite hex_length, digest_length.
  - apply hex_digits.
Qed.

Lemma add_documents_id_format_witness :
  String.length (doc_id "beta" 1) = 32%nat /\ hex_string (doc_id "beta" 1).
Proof.
  apply (proj2 (add_documents_id_format [doc_of "alpha"; doc_of "beta"])).
  simpl. auto.
Defined.

Lemma put_new_origin (c : gmap string entry) r id e :
  put_new c r !! id = Some e -> c !! id = Some e \/ r = (id, e).
Proof.
  unfold put_new. destruct (c !! r.1) eqn:E; [auto|].
  destruct (decide (r.1 = id)) as [<-|Hne].
  - rewrite lookup_insert_eq. intros [= <-]. right. now destruct r.
  - rewrite lookup_insert_ne by assumption. auto.
Qed.

Lemma foldl_put_new_origin records : forall (c : gmap string entry) id e,
  foldl put_new c records !! id = Some e ->
  c !! id = Some e \/ In (id, e) records.
Proof.
  induction records as [|r records IH]; intros c id e H; simpl in *; [auto|].
  apply IH in H as [H|H]; [|auto].
  apply put_new_origin in H as [H|H]; auto.
Qed.

(** Every record of a batch comes from one of its documents. *)
Lemma batch_record vs documents id e :
  In (id, e)
     (zip (ids_of documents)
          (zip_with (fun de m => mk_entry de.1 de.2 m)
             (zip (texts_of documents)
                  (map (embedding_model vs) (texts_of documents)))
             (metadatas_of documents))) ->
  exists i doc,
    documents !! i = Some doc /\
    id = doc_id (default "" (doc_content doc)) i /\
    e = {| e_document := default "" (doc_content doc);
           e_embedding := embedding_model vs (default "" (doc_content doc));
           e_metadata := default ∅ (doc_metadata doc) |}.
Proof.
  intros Hin. apply list_elem_of_In, list_elem_of_lookup in Hin as [i Hi].
  unfold ids_of, texts_of, metadatas_of in Hi.
  rewrite lookup_zip_with, list_lookup_imap in Hi.
  rewrite lookup_zip_with, lookup_zip_with, !list_lookup_fmap in Hi.
  destruct (documents !! i) as [doc|] eqn:Hdoc; [|discriminate].
  simpl in Hi. injection Hi as <- <-. now exists i, doc.
Qed.

(** What the store holds after [add_documents]: what it held, and records
    of the batch. *)
Lemma add_documents_origin vs documents id e :
  collection (add_documents vs documents).2 !! id = Some e ->
  collection vs !! id = Some e \/
  exists i doc,
    documents !! i = Some doc /\
    id = doc_id (default "" (doc_content doc)) i /\
    e = {| e_document := default "" (doc_content doc);
           e_embedding := embedding_model vs (default "" (doc_content doc));
           e_metadata := default ∅ (doc_metadata doc) |}.
Proof.
  destruct (add_documents vs documents).1 eqn:Hok.
  - destruct (add_documents_result vs documents Hok) as [_ ->].
    intros H. apply foldl_put_new_origin in H as [H|H]; [auto|].
    right. now apply (batch_record vs).
  - rewrite add_documents_unchanged by assumption. auto.
Qed.

Lemma add_documents_model vs documents :
  embedding_model (add_documents vs documents).2 = embedding_model vs /\
  client (add_documents vs documents).2 = client vs.
Proof.
  unfold add_documents. now destruct (collection_add _ _ _ _ _ _).
Qed.

(** X23: a search after [add_documents] returns only what is indexed:
    each result is a record the store held before, or a document of the
    batch with its own content and metadata, scored by 1 minus the
    distance the store reports between the embeddings of the query and of
    that content. *)
Theorem search_after_add vs documents query max_docs r :
  In r (search_similar (add_documents vs documents).2 query max_docs) ->
  (exists id e,
     collection vs !! id = Some e /\
     r = result_of (client vs) (embedding_model vs query) e) \/
  (exists i doc,
     documents !! i = Some doc /\
     content r = default "" (doc_content doc) /\
     metadata_of r = default ∅ (doc_metadata doc) /\
     score r
     = (1 - distance (client vs) (embedding_model vs query)
              (embedding_model vs (default "" (doc_content doc))))%R).
Proof.
  intros Hin. apply search_similar_hits in Hin as (id & e & He & ->).
  destruct (add_documents_model vs documents) as [-> ->].
  apply add_documents_origin in He as [He|(i & doc & Hdoc & _ & ->)].
  - left. now exists id, e.
  - right. now exists i, doc.
Qed.

Lemma search_after_add_witness :
  (exists id e,
     collection opposed_service !! id = Some e /\
     result_of (client opposed_service) [1%R] opposite_entry
     = result_of (client opposed_service)
         (embedding_model opposed_service "query") e) \/
  (exists i doc,
     [doc_of "alpha"] !! i = Some doc /\
     content (result_of (client opposed_service) [1%R] opposite_entry)
     = default "" (doc_content doc) /\
     metadata_of (result_of (client opposed_service) [1%R] opposite_entry)
     = default ∅ (doc_metadata doc) /\
     score (result_of (client opposed_service) [1%R] opposite_entry)
     = (1 - distance (client opposed_service)
              (embedding_model opposed_service "query")
              (embedding_model opposed_service
                 (default "" (doc_content doc))))%R).
Proof.
  apply (search_after_add opposed_service [doc_of "alpha"] "query" 5).
  replace (search_similar _ _ _)
    with [result_of (client opposed_service) [1%R] opposite_entry].
  - simpl. auto.
  - symmetry. unfold search_similar, collection_query.
    cbn [client opposed_service knn add_documents]. reflexivity.
Defined.

End IndexRoundTrip.
